(** * SafeDrive trip dispatch: a shallow embedding of the backend

    The development follows the three backend sources of the repository:

    - [backend/src/utils/pricing.js]   ([calculatePrice], [calculateEstimatedTime]);
    - [backend/src/utils/location.js]  ([findNearbyDrivers], [calculateETA],
      [isWithinServiceArea], [validateCoordinates]);
    - [backend/src/routes/trips.js]    (the handlers [POST /request],
      [POST /:trip_id/accept], [PATCH /:trip_id/status], [POST /:trip_id/sos]).

    Conventions of the embedding.

    - A JavaScript number is given two readings.  The handlers and [Pricing]
      take it as a rational ([Q]) and its arithmetic exactly; properties of
      order and of bounds are stated there.  [Binary64] is pricing.js on IEEE
      doubles, every operation rounded as JavaScript rounds it; the values
      [calculatePrice] returns are stated there, since the rounding to 10
      may fall on the other side of a tie than exact arithmetic has it.
    - A database table is the list of its rows; an [UPDATE ... WHERE] maps over
      the rows, a [SELECT ... WHERE] filters them, an [INSERT] appends one.
    - [CURRENT_TIMESTAMP] / [NOW()] / [new Date()] are an explicit argument of
      the handler that reads the clock.
    - A handler is a function from its request and the database to its HTTP
      response, the new database and the events it has emitted. *)

From Stdlib Require Import ZArith QArith Qround Qabs List String Bool Lia.
From Stdlib Require Import Sorting.Sorted.
From Stdlib Require Floats.PrimFloat Floats.SpecFloat Floats.FloatOps Uint63.
Import ListNotations.

Set Implicit Arguments.

(** ** JavaScript numbers *)

Module JS.

Definition number := Q.

(** [Math.round(x)]: the integer nearest to [x], a tie going up. *)
Definition Math_round (x : number) : number :=
  inject_Z (Qfloor (x + (1 # 2))).

(** [Math.max(x, y)]. *)
Definition Math_max (x y : number) : number :=
  if Qle_bool x y then y else x.

(** Truthiness of a number: [0] is falsy (so is NaN, which [Q] has not). *)
Definition truthy_number (x : number) : bool := negb (Qeq_bool x 0).

(** Truthiness of a property that may be absent ([undefined]). *)
Definition truthy (x : option number) : bool :=
  match x with
  | Some v => truthy_number v
  | None => false
  end.

(** [x.toFixed(1)] on a non-negative number, as the number of tenths
    printed. *)
Definition toFixed1_tenths (x : number) : Z := Qfloor (x * 10 + (1 # 2)).

End JS.

(** ** Dates *)

Inductive weekday : Type :=
  Sunday | Monday | Tuesday | Wednesday | Thursday | Friday | Saturday.

(** The number [Date.prototype.getDay] gives a week day. *)
Definition weekday_index (d : weekday) : Z :=
  match d with
  | Sunday => 0 | Monday => 1 | Tuesday => 2 | Wednesday => 3
  | Thursday => 4 | Friday => 5 | Saturday => 6
  end.

(** A [Date] as the code reads it: its local week day and hour, and the
    instant it denotes (seconds). *)
Record Date : Type := mkDate {
  date_weekday : weekday;
  date_hours : Z;
  date_instant : Z
}.

Definition getHours (t : Date) : Z := date_hours t.
Definition getDay (t : Date) : Z := weekday_index (date_weekday t).

(** What every JavaScript [Date] satisfies. *)
Definition valid_Date (t : Date) : Prop := (0 <= date_hours t < 24)%Z.

(** ** backend/src/utils/pricing.js *)

Module Pricing.
Import JS.

(** A row of [pricing_config]; [parseFloat] of a DECIMAL column is the
    decimal itself. *)
Record pricing_config : Type := mkPricing {
  base_price : Q;
  price_per_km : Q;
  night_multiplier : Q;
  weekend_multiplier : Q;
  minimum_price : Q;
  is_active : bool;
  created_at : Z
}.

(** Section 6.2 of the technical specification, and the column defaults. *)
Definition defaultConfig : pricing_config :=
  mkPricing 300 50 (3 # 2) (6 # 5) 400 true 0.

Definition calculatePrice
    (distanceKm : Q) (requestTime : Date) (config : pricing_config) : Q :=
  (* Base price *)
  let price := base_price config in
  (* Add distance cost *)
  let price := price + distanceKm * price_per_km config in
  (* Night multiplier (10pm - 6am) *)
  let hour := getHours requestTime in
  let price :=
    if ((hour >=? 22) || (hour <? 6))%Z
    then price * night_multiplier config else price in
  (* Weekend multiplier (Saturday = 6, Sunday = 0) *)
  let day := getDay requestTime in
  let price :=
    if ((day =? 0) || (day =? 6))%Z
    then price * weekend_multiplier config else price in
  (* Apply minimum price *)
  let price := Math_max price (minimum_price config) in
  (* Round to nearest 10 KES *)
  Math_round (price / 10) * 10.

(** [calculateEstimatedTime]: minutes at 36 km/h. *)
Definition calculateEstimatedTime (distanceKm : Q) : Q :=
  let averageSpeedKmh := 36 in
  let timeHours := distanceKm / averageSpeedKmh in
  Math_round (timeHours * 60).

(** *** The estimate as section 4.1 of the specification words it *)

Definition night_hour (h : Z) : bool :=
  (((22 <=? h) && (h <? 24)) || ((0 <=? h) && (h <? 6)))%Z.

Definition weekend_day (d : weekday) : bool :=
  match d with
  | Saturday | Sunday => true
  | _ => false
  end.

(** Nearest integer, a tie going away from zero. *)
Definition round_half_away (q : Q) : Z :=
  if Qle_bool 0 q then Qfloor (q + (1 # 2))
  else (- Qfloor (- q + (1 # 2)))%Z.

Definition estimate_spec
    (distanceKm : Q) (atTime : Date) (config : pricing_config) : Q :=
  let price := base_price config + distanceKm * price_per_km config in
  let price :=
    if night_hour (date_hours atTime)
    then price * night_multiplier config else price in
  let price :=
    if weekend_day (date_weekday atTime)
    then price * weekend_multiplier config else price in
  let price :=
    if Qle_bool (minimum_price config) price
    then price else minimum_price config in
  inject_Z (round_half_away (price / 10)) * 10.

(** The amount before the clamp and the rounding. *)
Definition unclamped_price
    (distanceKm : Q) (requestTime : Date) (config : pricing_config) : Q :=
  let price := base_price config + distanceKm * price_per_km config in
  let price :=
    if ((getHours requestTime >=? 22) || (getHours requestTime <? 6))%Z
    then price * night_multiplier config else price in
  if ((getDay requestTime =? 0) || (getDay requestTime =? 6))%Z
  then price * weekend_multiplier config else price.


(** The times of the worked examples. *)
Definition tuesday_20h : Date := mkDate Tuesday 20 0.
Definition tuesday_23h : Date := mkDate Tuesday 23 0.
Definition saturday_14h : Date := mkDate Saturday 14 0.
Definition sunday_01h : Date := mkDate Sunday 1 0.

End Pricing.

(** ** pricing.js on IEEE doubles

    JavaScript numbers are binary64 doubles, and every operation of
    [calculatePrice] rounds its result to one.  This is the function as it
    runs, on the primitive floats of Rocq, which are the same doubles. *)

Module Binary64.
Import Floats.PrimFloat Floats.SpecFloat Floats.FloatOps.
Import Pricing.

(** [Math.round(x)] on a double: the nearest integer, a tie going towards
    positive infinity.  NaN, the infinities and the zeros are returned as
    they are, and so is a double with no fractional bit; otherwise the double
    is [m * 2^e] with [e < 0], up to its sign, and the integer is read off
    [m].  The sign is kept when the result is zero. *)
Definition Math_round (x : float) : float :=
  match Prim2SF x with
  | S754_finite negative m e =>
      if (0 <=? e)%Z then x
      else
        let scale := (2 ^ (- e))%Z in
        let whole := (Z.pos m / scale)%Z in
        let rest := (Z.pos m mod scale)%Z in
        let magnitude :=
          if negative
          then (if (scale <? 2 * rest)%Z then whole + 1 else whole)%Z
          else (if (scale <=? 2 * rest)%Z then whole + 1 else whole)%Z in
        let rounded := of_uint63 (Uint63.of_Z magnitude) in
        if negative then (- rounded)%float else rounded
  | _ => x
  end.

(** [Math.max(x, y)] on doubles: NaN when either is, and [+0] above [-0]. *)
Definition Math_max (x y : float) : float :=
  if is_nan x || is_nan y then nan
  else if ltb x y then y
  else if ltb y x then x
  else if get_sign x then y else x.

(** The double of an integer, exact below [2^53]. *)
Definition of_Z (z : Z) : float :=
  if (z <? 0)%Z then (- of_uint63 (Uint63.of_Z (- z)))%float
  else of_uint63 (Uint63.of_Z z).

(** [parseFloat] of the text of a DECIMAL column: the double nearest to the
    decimal.  The decimals of [pricing_config] have at most eight digits, so
    their numerator and denominator are doubles, and the division of doubles
    gives the double nearest to the quotient. *)
Definition parseFloat (q : Q) : float :=
  (of_Z (Qnum q) / of_Z (Z.pos (Qden q)))%float.

Definition calculatePrice
    (distanceKm : float) (requestTime : Date) (config : pricing_config)
  : float :=
  (* Base price *)
  let price := parseFloat (base_price config) in
  (* Add distance cost *)
  let price := (price + distanceKm * parseFloat (price_per_km config))%float in
  (* Night multiplier (10pm - 6am) *)
  let hour := getHours requestTime in
  let price :=
    if ((hour >=? 22) || (hour <? 6))%Z
    then (price * parseFloat (night_multiplier config))%float else price in
  (* Weekend multiplier (Saturday = 6, Sunday = 0) *)
  let day := getDay requestTime in
  let price :=
    if ((day =? 0) || (day =? 6))%Z
    then (price * parseFloat (weekend_multiplier config))%float else price in
  (* Apply minimum price *)
  let price := Math_max price (parseFloat (minimum_price config)) in
  (* Round to nearest 10 KES *)
  (Math_round (price / 10) * 10)%float.

(** [calculateEstimatedTime]: minutes at 36 km/h. *)
Definition calculateEstimatedTime (distanceKm : float) : float :=
  let averageSpeedKmh := 36%float in
  let timeHours := (distanceKm / averageSpeedKmh)%float in
  Math_round (timeHours * 60).

(** *** The estimate as section 4.1 of the specification words it, in the
    arithmetic of doubles *)

(** The nearest multiple of 10, a tie going up. *)
Definition nearest_ten (x : float) : float := (Math_round (x / 10) * 10)%float.

Definition estimate
    (distanceKm : float) (atTime : Date) (config : pricing_config) : float :=
  let base := parseFloat (base_price config) in
  let perKm := parseFloat (price_per_km config) in
  let price := (base + distanceKm * perKm)%float in
  let price :=
    if night_hour (date_hours atTime)
    then (price * parseFloat (night_multiplier config))%float else price in
  let price :=
    if weekend_day (date_weekday atTime)
    then (price * parseFloat (weekend_multiplier config))%float else price in
  nearest_ten (Math_max price (parseFloat (minimum_price config))).

End Binary64.

(** ** The record store *)

Module Store.

(** A UUID is an opaque key; only equality is ever used on it. *)
Definition uuid := nat.
Definition uuid_eqb : uuid -> uuid -> bool := Nat.eqb.

(** A nullable UUID column compared by [=] with a value: NULL matches
    nothing. *)
Definition column_is (c : option uuid) (v : uuid) : bool :=
  match c with
  | Some x => uuid_eqb x v
  | None => false
  end.

Inductive user_type : Type := client | driver | admin.
Inductive user_status : Type := active | suspended | deleted.

Record user : Type := mkUser {
  user_id : uuid;
  full_name : string;
  phone_number : string;
  account_type : user_type;
  account_status : user_status
}.

Inductive approval : Type := awaiting_review | approved | rejected.

(** [ST_MakePoint(longitude, latitude)]. *)
Record point : Type := mkPoint {
  longitude : Q;
  latitude : Q
}.

Record driver_profile : Type := mkDriver {
  dp_user_id : uuid;
  approval_status : approval;
  is_available : bool;
  current_location : option point;
  last_location_update : option Z;
  rating_average : Q;
  total_trips : Z;
  profile_photo_url : option string
}.

Inductive trip_status : Type :=
| pending
| accepted
| driver_arriving
| in_progress
| completed
| cancelled_by_client
| cancelled_by_driver.

Record trip : Type := mkTrip {
  trip_id : uuid;
  client_id : uuid;
  driver_id : option uuid;
  pickup_location : point;
  pickup_address : string;
  dropoff_location : point;
  dropoff_address : string;
  estimated_distance_km : Q;
  estimated_duration_min : Q;
  estimated_price : Q;
  final_price : option Q;
  status : trip_status;
  requested_at : Z;
  accepted_at : option Z;
  started_at : option Z;
  completed_at : option Z;
  cancelled_at : option Z;
  sos_triggered : bool;
  sos_triggered_at : option Z;
  updated_at : Z
}.

(** What a handler logs: the [action] column and the JSON of [changes]. *)
Inductive audit_action : Type :=
| trip_requested
| trip_accepted_action
| trip_status_updated (s : trip_status)
| sos_triggered_action (current_location : option point).

Record audit_log : Type := mkAudit {
  al_user_id : uuid;
  al_action : audit_action;
  al_entity_id : uuid;
  al_ip_address : string
}.

Record db : Type := mkDb {
  users : list user;
  driver_profiles : list driver_profile;
  trips : list trip;
  pricing_configs : list Pricing.pricing_config;
  audit_logs : list audit_log
}.

Definition status_eqb (a b : trip_status) : bool :=
  match a, b with
  | pending, pending
  | accepted, accepted
  | driver_arriving, driver_arriving
  | in_progress, in_progress
  | completed, completed
  | cancelled_by_client, cancelled_by_client
  | cancelled_by_driver, cancelled_by_driver => true
  | _, _ => false
  end.

Definition approval_eqb (a b : approval) : bool :=
  match a, b with
  | awaiting_review, awaiting_review
  | approved, approved
  | rejected, rejected => true
  | _, _ => false
  end.

Definition user_status_eqb (a b : user_status) : bool :=
  match a, b with
  | active, active | suspended, suspended | deleted, deleted => true
  | _, _ => false
  end.

(** Replacing one table. *)
Definition with_trips (ts : list trip) (d : db) : db :=
  mkDb (users d) (driver_profiles d) ts (pricing_configs d) (audit_logs d).

Definition with_driver_profiles (ps : list driver_profile) (d : db) : db :=
  mkDb (users d) ps (trips d) (pricing_configs d) (audit_logs d).

(** [INSERT INTO audit_logs]. *)
Definition insert_audit (a : audit_log) (d : db) : db :=
  mkDb (users d) (driver_profiles d) (trips d) (pricing_configs d)
       (audit_logs d ++ [a]).

(** [SELECT ... FROM trips WHERE id = $1], then [rows[0]]. *)
Definition select_trip (id : uuid) (d : db) : option trip :=
  find (fun t => uuid_eqb (trip_id t) id) (trips d).

(** [SELECT ... FROM users WHERE id = $1], then [rows[0]]. *)
Definition select_user (id : uuid) (d : db) : option user :=
  find (fun u => uuid_eqb (user_id u) id) (users d).

(** [SELECT ... FROM driver_profiles WHERE user_id = $1], then [rows[0]]. *)
Definition select_driver (id : uuid) (d : db) : option driver_profile :=
  find (fun p => uuid_eqb (dp_user_id p) id) (driver_profiles d).

(** [UPDATE driver_profiles SET is_available = $b WHERE user_id = $1]; a
    NULL [$1] matches no row. *)
Definition set_available (b : bool) (p : driver_profile) : driver_profile :=
  mkDriver (dp_user_id p) (approval_status p) b (current_location p)
           (last_location_update p) (rating_average p) (total_trips p)
           (profile_photo_url p).

Definition update_availability (who : option uuid) (b : bool) (d : db) : db :=
  with_driver_profiles
    (map (fun p => if column_is who (dp_user_id p) then set_available b p else p)
         (driver_profiles d))
    d.

(** [SELECT * FROM pricing_config WHERE is_active = true
     ORDER BY created_at DESC LIMIT 1], then [rows[0]]. *)
Fixpoint latest_config (l : list Pricing.pricing_config)
  : option Pricing.pricing_config :=
  match l with
  | [] => None
  | c :: rest =>
      match latest_config rest with
      | Some c' =>
          if (Pricing.created_at c <? Pricing.created_at c')%Z
          then Some c' else Some c
      | None => Some c
      end
  end.

Definition active_pricing_config (d : db) : option Pricing.pricing_config :=
  latest_config (filter Pricing.is_active (pricing_configs d)).

(** [id UUID PRIMARY KEY] on trips. *)
Definition trips_primary_key (d : db) : Prop := NoDup (map trip_id (trips d)).

End Store.

(** ** backend/src/utils/location.js *)

Module Location.
Import JS Store.

(** A row of the query of [findNearbyDrivers]. *)
Record nearby_row : Type := mkNearby {
  nr_user_id : uuid;
  nr_full_name : string;
  nr_phone_number : string;
  nr_rating_average : Q;
  nr_total_trips : Z;
  nr_profile_photo_url : option string;
  nr_distance_km : Q;
  nr_latitude : Q;
  nr_longitude : Q
}.

(** An element of the array [findNearbyDrivers] resolves to.  [distance_km]
    is the string [toFixed(1)] prints, held as its number of tenths. *)
Record nearby_driver : Type := mkCandidate {
  id : uuid;
  name : string;
  phone : string;
  rating : Q;
  nd_total_trips : Z;
  nd_profile_photo_url : option string;
  distance_km : Z;
  eta_minutes : Q;
  location : point
}.

(** [INTERVAL '10 minutes'], in seconds. *)
Definition freshness_window : Z := 600.

(** [LIMIT 20]. *)
Definition candidate_limit : nat := 20.

(** [calculateETA]: minutes at 30 km/h, at least 3. *)
Definition calculateETA (distanceKm : Q) : Q :=
  let averageSpeedKmh := 30 in
  let timeHours := distanceKm / averageSpeedKmh in
  Math_max (Math_round (timeHours * 60)) 3.

(** [ORDER BY distance_km ASC]: a stable insertion sort stands for the
    order of the database, which leaves the order of ties open. *)
Fixpoint insert_by_distance (r : nearby_row) (l : list nearby_row)
  : list nearby_row :=
  match l with
  | [] => [r]
  | x :: rest =>
      if Qle_bool (nr_distance_km r) (nr_distance_km x)
      then r :: x :: rest
      else x :: insert_by_distance r rest
  end.

Definition order_by_distance (l : list nearby_row) : list nearby_row :=
  fold_right insert_by_distance [] l.

Section Geography.

(** PostGIS [ST_Distance] on geographies, in metres.  Geodesy is outside
    the embedding: the query is modelled for any distance function. *)
Variable ST_Distance : point -> point -> Q.

(** [ST_DWithin(a, b, metres)]. *)
Definition ST_DWithin (a b : point) (metres : Q) : bool :=
  Qle_bool (ST_Distance a b) metres.

(** The [WHERE] clause on a joined pair, with [$1 = longitude],
    [$2 = latitude], [$3 = metres].  A NULL location or a NULL
    [last_location_update] makes the condition NULL, and the row is
    dropped. *)
Definition nearby_where
    (origin : point) (metres : Q) (now : Z)
    (dp : driver_profile) (u : user) : bool :=
  is_available dp
  && approval_eqb (approval_status dp) approved
  && user_status_eqb (account_status u) active
  && match current_location dp with
     | Some loc => ST_DWithin loc origin metres
     | None => false
     end
  && match last_location_update dp with
     | Some t => (now - freshness_window <? t)%Z
     | None => false
     end.

(** [FROM driver_profiles dp JOIN users u ON dp.user_id = u.id WHERE ...],
    with the selected columns. *)
Definition nearby_select
    (origin : point) (metres : Q) (now : Z) (d : db) : list nearby_row :=
  flat_map
    (fun dp =>
       flat_map
         (fun u =>
            if uuid_eqb (dp_user_id dp) (user_id u)
               && nearby_where origin metres now dp u
            then
              match current_location dp with
              | Some loc =>
                  [mkNearby (dp_user_id dp) (full_name u) (phone_number u)
                            (rating_average dp) (total_trips dp)
                            (profile_photo_url dp)
                            (ST_Distance loc origin / 1000)
                            (latitude loc) (longitude loc)]
              | None => []
              end
            else [])
         (users d))
    (driver_profiles d).

(** The whole statement: [... ORDER BY distance_km ASC LIMIT 20]. *)
Definition nearby_query
    (origin : point) (metres : Q) (now : Z) (d : db) : list nearby_row :=
  firstn candidate_limit
         (order_by_distance (nearby_select origin metres now d)).

Definition present_driver (r : nearby_row) : nearby_driver :=
  mkCandidate (nr_user_id r) (nr_full_name r) (nr_phone_number r)
              (nr_rating_average r) (nr_total_trips r)
              (nr_profile_photo_url r)
              (toFixed1_tenths (nr_distance_km r))
              (calculateETA (nr_distance_km r))
              (mkPoint (nr_longitude r) (nr_latitude r)).

(** [findNearbyDrivers(latitude, longitude, radiusKm)], run at the
    database time [now]. *)
Definition findNearbyDrivers
    (lat lon : Q) (radiusKm : Q) (now : Z) (d : db) : list nearby_driver :=
  let rows := nearby_query (mkPoint lon lat) (radiusKm * 1000) now d in
  map present_driver rows.

End Geography.

(** The order of the rows of the query. *)
Definition nearer (a b : nearby_row) : Prop :=
  (nr_distance_km a <= nr_distance_km b)%Q.

(** Nairobi approximate bounds. *)
Definition north : Q := - (1163 # 1000).
Definition south : Q := - (1444 # 1000).
Definition east : Q := 37103 # 1000.
Definition west : Q := 36651 # 1000.

Definition isWithinServiceArea (lat lon : Q) : bool :=
  Qle_bool south lat && Qle_bool lat north
  && Qle_bool west lon && Qle_bool lon east.

(** [validateCoordinates]; both arguments are numbers by their type. *)
Definition validateCoordinates (lat lon : Q) : bool :=
  Qle_bool (-90) lat && Qle_bool lat 90
  && Qle_bool (-180) lon && Qle_bool lon 180.

End Location.

(** ** backend/src/routes/trips.js

    The handler bodies are modelled.  The middleware in front of them
    ([authenticateToken], [requireUserType]) is not part of the sources at
    hand: a handler receives the authenticated [req.user.id]. *)

Module Trips.
Import JS Store Location.

(** *** Requests, responses and emitted events *)

(** A location of a request body; every property may be absent. *)
Record location_body : Type := mkLocation {
  lb_latitude : option Q;
  lb_longitude : option Q;
  lb_address : option string
}.

Record request_body : Type := mkRequest {
  rb_pickup_location : option location_body;
  rb_dropoff_location : option location_body
}.

(** [res.json(body)] with [success: true], or
    [res.status(code).json({ success: false, error })]. *)
Inductive response (A : Type) : Type :=
| json (body : A)
| failure (code : Z) (error : string).

Arguments json {A} body.
Arguments failure {A} code error.

Inductive message : Type :=
| new_trip_request (trip : uuid) (pickup dropoff : option location_body)
                   (estimated_price : Q)
| trip_accepted (trip : uuid) (by_driver : uuid)
| trip_status_change (trip : uuid) (s : trip_status)
| sos_alert (trip : uuid) (triggered_by : uuid)
            (current_location : option point) (trip_details : option Store.trip).

Inductive event : Type :=
| notifyDriver (recipient : option uuid) (m : message)
| notifyClient (recipient : uuid) (m : message)
| io_emit (room : string) (m : message).

(** What a handler leaves behind: its response, the database, the events. *)
Definition outcome (A : Type) : Type := (response A * db * list event)%type.

Record request_accepted : Type := mkRequestAccepted {
  ra_trip_id : uuid;
  ra_estimated_price : Q;
  ra_estimated_distance_km : Q;
  ra_estimated_duration_min : Q;
  ra_available_drivers_count : nat
}.

Record accepted_trip : Type := mkAcceptedTrip {
  at_id : uuid;
  at_client_name : string;
  at_client_phone : string;
  at_pickup_address : string;
  at_dropoff_address : string;
  at_estimated_price : Q
}.

Record sos_acknowledgement : Type := mkSosAck {
  sos_message : string;
  support_number : option string
}.

(** The error strings of the handlers. *)
Definition invalid_location_error : string := "Invalid pickup or dropoff location".
Definition request_failed_error : string := "Failed to create trip request".
Definition driver_not_eligible_error : string := "Driver not approved or not available".
Definition stale_offer_error : string :=
  "Trip already accepted by another driver or cancelled".
Definition accept_failed_error : string := "Failed to accept trip".
Definition invalid_status_error : string := "Invalid status".
Definition trip_not_found_error : string := "Trip not found".
Definition unauthorized_error : string := "Unauthorized".
Definition status_failed_error : string := "Failed to update trip status".
Definition sos_sent_message : string := "Emergency alert sent to support team".

(** *** POST /request *)

(** [location?.latitude], [location?.longitude], [location.address]. *)
Definition latitude_of (l : option location_body) : option Q :=
  match l with Some b => lb_latitude b | None => None end.

Definition longitude_of (l : option location_body) : option Q :=
  match l with Some b => lb_longitude b | None => None end.

Definition address_of (l : option location_body) : option string :=
  match l with Some b => lb_address b | None => None end.

(** The guard under [// Validate locations]. *)
Definition locations_rejected (body : request_body) : bool :=
  negb (truthy (latitude_of (rb_pickup_location body)))
  || negb (truthy (longitude_of (rb_pickup_location body)))
  || negb (truthy (latitude_of (rb_dropoff_location body)))
  || negb (truthy (longitude_of (rb_dropoff_location body))).

(** A coordinate that is present and is the number 0. *)
Definition is_zero (x : option Q) : Prop :=
  exists q : Q, x = Some q /\ (q == 0)%Q.

(** A request one of whose four coordinates is the number 0. *)
Definition has_zero_coordinate (body : request_body) : Prop :=
  is_zero (latitude_of (rb_pickup_location body))
  \/ is_zero (longitude_of (rb_pickup_location body))
  \/ is_zero (latitude_of (rb_dropoff_location body))
  \/ is_zero (longitude_of (rb_dropoff_location body)).

(** Both locations carry numbers that [validateCoordinates] admits. *)
Definition coordinates_in_range (body : request_body) : bool :=
  match latitude_of (rb_pickup_location body),
        longitude_of (rb_pickup_location body),
        latitude_of (rb_dropoff_location body),
        longitude_of (rb_dropoff_location body) with
  | Some a, Some b, Some c, Some e =>
      validateCoordinates a b && validateCoordinates c e
  | _, _, _, _ => false
  end.


(** The number held by a property that passed the guard. *)
Definition number_of (x : option Q) : Q :=
  match x with Some v => v | None => 0 end.

Section Handlers.

(** [calculateDistance] of pricing.js is the haversine formula;
    trigonometry is outside the embedding, and the handler is modelled for
    any distance function. *)
Variable calculateDistance : Q -> Q -> Q -> Q -> Q.
Variable ST_Distance : point -> point -> Q.

(** The handler is followed up to its answer for the requests the database
    stores as they are given: coordinates that [validateCoordinates] admits
    (the GEOGRAPHY columns move other points into the ranges), and a
    distance and a price that fit DECIMAL(6,2) and DECIMAL(8,2).  Failures of
    the database itself, which the [catch] answers with 500 wherever they
    happen, are not part of it. *)
Definition post_request
    (client_id : uuid) (ip : string) (body : request_body)
    (now : Date) (new_id : uuid) (d : db) : outcome request_accepted :=
  let pickup_location := rb_pickup_location body in
  let dropoff_location := rb_dropoff_location body in
  (* Validate locations *)
  if locations_rejected body
  then (failure 400 invalid_location_error, d, [])
  else
    let pickup_latitude := number_of (latitude_of pickup_location) in
    let pickup_longitude := number_of (longitude_of pickup_location) in
    let dropoff_latitude := number_of (latitude_of dropoff_location) in
    let dropoff_longitude := number_of (longitude_of dropoff_location) in
    (* Calculate distance and price *)
    let distance :=
      calculateDistance pickup_latitude pickup_longitude
                        dropoff_latitude dropoff_longitude in
    match active_pricing_config d with
    | None =>
        (* [calculatePrice] reads a property of [undefined]: caught *)
        (failure 500 request_failed_error, d, [])
    | Some config =>
        let estimatedPrice := Pricing.calculatePrice distance now config in
        let estimatedDuration := Math_round (distance / (6 # 10)) in
        (* Create trip *)
        match address_of pickup_location, address_of dropoff_location with
        | Some pickup_address, Some dropoff_address =>
            let trip :=
              mkTrip new_id client_id None
                     (mkPoint pickup_longitude pickup_latitude) pickup_address
                     (mkPoint dropoff_longitude dropoff_latitude) dropoff_address
                     distance estimatedDuration estimatedPrice None
                     pending
                     (date_instant now) None None None None
                     false None (date_instant now) in
            let d := with_trips (trips d ++ [trip]) d in
            (* Find nearby available drivers *)
            let nearbyDrivers :=
              findNearbyDrivers ST_Distance pickup_latitude pickup_longitude
                                5 (date_instant now) d in
            (* Notify nearby drivers; the elements carry [id], and the
               property read here, [user_id], is undefined on them *)
            let events :=
              map (fun _ : nearby_driver =>
                     notifyDriver None
                       (new_trip_request (trip_id trip) pickup_location
                                         dropoff_location
                                         (estimated_price trip)))
                  nearbyDrivers in
            (* Log action *)
            let d :=
              insert_audit
                (mkAudit client_id trip_requested (trip_id trip) ip) d in
            (json (mkRequestAccepted
                     (trip_id trip) (estimated_price trip)
                     (estimated_distance_km trip)
                     (estimated_duration_min trip)
                     (List.length nearbyDrivers)),
             d, events)
        | _, _ =>
            (* the address columns are NOT NULL: the INSERT fails, caught *)
            (failure 500 request_failed_error, d, [])
        end
    end.

End Handlers.

(** *** POST /:trip_id/accept *)

(** [// Check if driver is approved and available]: the negation of the
    guard that answers 403. *)
Definition driver_may_accept (driver_id : uuid) (d : db) : bool :=
  match select_driver driver_id d with
  | None => false
  | Some row =>
      approval_eqb (approval_status row) approved && is_available row
  end.

(** The [SET] clause of the accept statement on one row. *)
Definition bind_driver (driver : uuid) (now : Z) (t : trip) : trip :=
  mkTrip (trip_id t) (client_id t) (Some driver)
         (pickup_location t) (pickup_address t)
         (dropoff_location t) (dropoff_address t)
         (estimated_distance_km t) (estimated_duration_min t)
         (estimated_price t) (final_price t)
         accepted
         (requested_at t) (Some now) (started_at t) (completed_at t)
         (cancelled_at t) (sos_triggered t) (sos_triggered_at t)
         (updated_at t).

(** Its [WHERE] clause: [id = $2 AND status = 'pending']. *)
Definition still_pending (id : uuid) (t : trip) : bool :=
  uuid_eqb (trip_id t) id && status_eqb (status t) pending.

(** [UPDATE trips SET driver_id = $1, status = 'accepted',
     accepted_at = CURRENT_TIMESTAMP WHERE id = $2 AND status = 'pending'
     RETURNING *]: the rows returned and the table afterwards.  The
    statement is one atomic step of the database. *)
Definition accept_statement
    (driver : uuid) (id : uuid) (now : Z) (d : db) : list trip * db :=
  (map (bind_driver driver now) (filter (still_pending id) (trips d)),
   with_trips
     (map (fun t => if still_pending id t then bind_driver driver now t else t)
          (trips d))
     d).

Definition post_accept
    (driver_id : uuid) (ip : string) (trip_id : uuid) (now : Z) (d : db)
  : outcome accepted_trip :=
  (* BEGIN *)
  (* Check if driver is approved and available *)
  if negb (driver_may_accept driver_id d)
  then (* ROLLBACK *) (failure 403 driver_not_eligible_error, d, [])
  else
    (* Try to accept the trip (only if still pending) *)
    let (rows, d1) := accept_statement driver_id trip_id now d in
    match rows with
    | [] => (* ROLLBACK *) (failure 409 stale_offer_error, d, [])
    | trip :: _ =>
        (* Mark driver as unavailable *)
        let d2 := update_availability (Some driver_id) false d1 in
        (* Get client details *)
        let clientResult := select_user (client_id trip) d2 in
        (* COMMIT *)
        (* Notify client *)
        let events :=
          [notifyClient (client_id trip)
                        (trip_accepted (Store.trip_id trip) driver_id)] in
        (* Log action *)
        let d3 :=
          insert_audit
            (mkAudit driver_id trip_accepted_action (Store.trip_id trip) ip)
            d2 in
        match clientResult with
        | Some c =>
            (json (mkAcceptedTrip (Store.trip_id trip) (full_name c)
                                  (phone_number c) (pickup_address trip)
                                  (dropoff_address trip)
                                  (estimated_price trip)),
             d3, events)
        | None =>
            (* [rows[0]] is undefined: the exception is caught after the
               COMMIT, and the ROLLBACK of the handler undoes nothing *)
            (failure 500 accept_failed_error, d3, events)
        end
    end.

(** *** PATCH /:trip_id/status *)

Definition validStatuses : list trip_status :=
  [driver_arriving; in_progress; completed;
   cancelled_by_client; cancelled_by_driver].

(** [status.includes('cancelled')]. *)
Definition includes_cancelled (s : trip_status) : bool :=
  match s with
  | cancelled_by_client | cancelled_by_driver => true
  | _ => false
  end.

(** The time columns [updateFields] may carry besides [status]. *)
Inductive time_column : Type :=
| started_at_column
| completed_at_column
| cancelled_at_column.

Definition time_column_eqb (a b : time_column) : bool :=
  match a, b with
  | started_at_column, started_at_column
  | completed_at_column, completed_at_column
  | cancelled_at_column, cancelled_at_column => true
  | _, _ => false
  end.

(** [updateFields] without its [status]: the time column of the new status
    and the value the handler gives it, which is the string
    ['CURRENT_TIMESTAMP'] and not a time. *)
Definition updateFields (s : trip_status) : list (time_column * string) :=
  if status_eqb s in_progress
  then [(started_at_column, "CURRENT_TIMESTAMP"%string)]
  else if status_eqb s completed
  then [(completed_at_column, "CURRENT_TIMESTAMP"%string)]
  else if includes_cancelled s
  then [(cancelled_at_column, "CURRENT_TIMESTAMP"%string)]
  else [].

(** The values of [updateFields] are bound as the parameters [$2], [$3] of
    the statement, so the database receives each of them as the text of a
    value of the column and never as SQL.  For a TIMESTAMP column that text
    goes through the input of timestamps, which reads the words [now] and
    [epoch] (and literal dates, which the handler never binds and which are
    left out here); CURRENT_TIMESTAMP is a keyword of the language of
    statements and no such input: the database refuses the value with
    [invalid input syntax for type timestamp]. *)
Definition timestamp_in (now : Z) (text : string) : option Z :=
  if String.eqb text "now" then Some now
  else if String.eqb text "epoch" then Some 0%Z
  else None.

(** The time columns with the values read from their parameters, when the
    database accepts every one of them. *)
Fixpoint bound_times (now : Z) (fields : list (time_column * string))
  : option (list (time_column * Z)) :=
  match fields with
  | [] => Some []
  | (column, text) :: rest =>
      match timestamp_in now text, bound_times now rest with
      | Some v, Some l => Some ((column, v) :: l)
      | _, _ => None
      end
  end.

(** What [SET column = $n] leaves in a time column: the bound value when the
    column is among the fields, and what it held otherwise. *)
Definition written
    (column : time_column) (times : list (time_column * Z)) (old : option Z)
  : option Z :=
  match find (fun p => time_column_eqb (fst p) column) times with
  | Some p => Some (snd p)
  | None => old
  end.

(** The [SET] clause on one row: [status], the time columns of
    [updateFields], and [updated_at = CURRENT_TIMESTAMP], which is written
    in the statement itself and is the time of the statement. *)
Definition write_status
    (s : trip_status) (times : list (time_column * Z)) (now : Z) (t : trip)
  : trip :=
  mkTrip (trip_id t) (client_id t) (driver_id t)
         (pickup_location t) (pickup_address t)
         (dropoff_location t) (dropoff_address t)
         (estimated_distance_km t) (estimated_duration_min t)
         (estimated_price t) (final_price t)
         s
         (requested_at t) (accepted_at t)
         (written started_at_column times (started_at t))
         (written completed_at_column times (completed_at t))
         (written cancelled_at_column times (cancelled_at t))
         (sos_triggered t) (sos_triggered_at t)
         now.

(** [UPDATE trips SET ..., updated_at = CURRENT_TIMESTAMP WHERE id = $1
     RETURNING *]: the rows returned and the table afterwards, or nothing
    when the database refuses a parameter, in which case no row is
    written. *)
Definition status_statement
    (id : uuid) (s : trip_status) (now : Z) (d : db)
  : option (list trip * db) :=
  match bound_times now (updateFields s) with
  | None => None
  | Some times =>
      Some
        (map (write_status s times now)
             (filter (fun t => uuid_eqb (trip_id t) id) (trips d)),
         with_trips
           (map (fun t => if uuid_eqb (trip_id t) id
                          then write_status s times now t else t)
                (trips d))
           d)
  end.

Definition patch_status
    (user_id : uuid) (ip : string) (trip_id : uuid) (status : trip_status)
    (now : Z) (d : db) : outcome (option trip) :=
  (* Validate status transition *)
  if negb (existsb (status_eqb status) validStatuses)
  then (failure 400 invalid_status_error, d, [])
  else
    (* Check authorization (client or driver of this trip) *)
    match select_trip trip_id d with
    | None => (failure 404 trip_not_found_error, d, [])
    | Some trip =>
        if negb (uuid_eqb (client_id trip) user_id)
           && negb (column_is (driver_id trip) user_id)
        then (failure 403 unauthorized_error, d, [])
        else
          (* Update status *)
          match status_statement trip_id status now d with
          | None =>
              (* the statement is refused: caught, nothing was written *)
              (failure 500 status_failed_error, d, [])
          | Some (rows, d1) =>
              let updatedTrip := hd_error rows in
              (* If completed or cancelled, make driver available again *)
              let d2 :=
                if status_eqb status completed || includes_cancelled status
                then update_availability (driver_id trip) true d1
                else d1 in
              (* Notify the other party *)
              let notifyUserId :=
                if uuid_eqb user_id (client_id trip)
                then driver_id trip else Some (client_id trip) in
              let events :=
                match notifyUserId with
                | Some u =>
                    [notifyDriver (Some u) (trip_status_change trip_id status)]
                | None => []
                end in
              (* Log action *)
              let d3 :=
                insert_audit
                  (mkAudit user_id (trip_status_updated status) trip_id ip)
                  d2 in
              (json updatedTrip, d3, events)
          end
    end.

(** *** POST /:trip_id/sos *)

(** [SET sos_triggered = true, sos_triggered_at = CURRENT_TIMESTAMP]. *)
Definition raise_sos (now : Z) (t : trip) : trip :=
  mkTrip (trip_id t) (client_id t) (driver_id t)
         (pickup_location t) (pickup_address t)
         (dropoff_location t) (dropoff_address t)
         (estimated_distance_km t) (estimated_duration_min t)
         (estimated_price t) (final_price t)
         (status t)
         (requested_at t) (accepted_at t) (started_at t) (completed_at t)
         (cancelled_at t)
         true (Some now)
         (updated_at t).

(** [SELECT t.*, ... FROM trips t JOIN users c ON t.client_id = c.id
     LEFT JOIN users d ON t.driver_id = d.id WHERE t.id = $1], then
    [rows[0]]; the joined names are left out of the row. *)
Definition select_trip_details (id : uuid) (d : db) : option trip :=
  find (fun t =>
          uuid_eqb (trip_id t) id
          && existsb (fun c => uuid_eqb (client_id t) (user_id c)) (users d))
       (trips d).

Definition post_sos
    (SUPPORT_PHONE : option string)
    (user_id : uuid) (ip : string) (trip_id : uuid)
    (current_location : option point) (now : Z) (d : db)
  : outcome sos_acknowledgement :=
  (* Update trip with SOS flag *)
  let d1 :=
    with_trips
      (map (fun t => if uuid_eqb (Store.trip_id t) trip_id
                     then raise_sos now t else t)
           (trips d))
      d in
  (* Get trip details for emergency notification *)
  let trip := select_trip_details trip_id d1 in
  (* 1. Notify admin dashboard *)
  let events :=
    [io_emit "admin" (sos_alert trip_id user_id current_location trip)] in
  (* 3. Log emergency *)
  let d2 :=
    insert_audit
      (mkAudit user_id (sos_triggered_action current_location) trip_id ip)
      d1 in
  (json (mkSosAck sos_sent_message SUPPORT_PHONE), d2, events).

(** The emergency events on record for a trip: the rows the SOS handler
    logs. *)
Definition is_emergency_event (id : uuid) (a : audit_log) : bool :=
  match al_action a with
  | sos_triggered_action _ => uuid_eqb (al_entity_id a) id
  | _ => false
  end.

Definition emergency_events (id : uuid) (d : db) : list audit_log :=
  filter (is_emergency_event id) (audit_logs d).

End Trips.

(** ** Concurrent acceptance

    Every database statement of [POST /:trip_id/accept] is one atomic step;
    the steps of concurrent calls interleave in any order.  A write is seen by
    the statements that follow it, which is what the row lock of the accept
    statement gives the calls that wait for it: none of the paths modelled
    rolls a write back. *)

Module AcceptRace.
Import Store Trips.

(** Where a call stands. *)
Inductive stage : Type :=
| at_driver_check
| at_accept_statement
| at_mark_unavailable (row : trip)
| at_client_details (row : trip)
| at_commit (row : trip) (clientResult : option user)
| responded (r : response accepted_trip).

Record call : Type := mkCall {
  caller : uuid;
  caller_ip : string;
  stage_of : stage
}.

Record world : Type := mkWorld {
  store : db;
  emitted : list event
}.

Definition at_stage (c : call) (s : stage) : call :=
  mkCall (caller c) (caller_ip c) s.

(** The next statement of a call on trip [id], run at time [now]. *)
Definition advance (id : uuid) (now : Z) (c : call) (w : world)
  : option (call * world) :=
  match stage_of c with
  | at_driver_check =>
      if negb (driver_may_accept (caller c) (store w))
      then Some (at_stage c (responded (failure 403 driver_not_eligible_error)), w)
      else Some (at_stage c at_accept_statement, w)
  | at_accept_statement =>
      let (rows, d1) := accept_statement (caller c) id now (store w) in
      match rows with
      | [] => Some (at_stage c (responded (failure 409 stale_offer_error)), w)
      | row :: _ =>
          Some (at_stage c (at_mark_unavailable row), mkWorld d1 (emitted w))
      end
  | at_mark_unavailable row =>
      Some (at_stage c (at_client_details row),
            mkWorld (update_availability (Some (caller c)) false (store w))
                    (emitted w))
  | at_client_details row =>
      Some (at_stage c (at_commit row (select_user (client_id row) (store w))),
            w)
  | at_commit row clientResult =>
      let w' :=
        mkWorld
          (insert_audit
             (mkAudit (caller c) trip_accepted_action (trip_id row)
                      (caller_ip c))
             (store w))
          (emitted w
           ++ [notifyClient (client_id row)
                            (trip_accepted (trip_id row) (caller c))]) in
      match clientResult with
      | Some u =>
          Some (at_stage c
                  (responded
                     (json (mkAcceptedTrip (trip_id row) (full_name u)
                                           (phone_number u)
                                           (pickup_address row)
                                           (dropoff_address row)
                                           (estimated_price row)))),
                w')
      | None =>
          Some (at_stage c (responded (failure 500 accept_failed_error)), w')
      end
  | responded _ => None
  end.

(** One call among the concurrent ones runs its next statement. *)
Inductive race_step (id : uuid) : world * list call -> world * list call -> Prop :=
| race_advance :
    forall now before c after w c' w',
      advance id now c w = Some (c', w') ->
      race_step id (w, before ++ c :: after) (w', before ++ c' :: after).

Inductive race_run (id : uuid) : world * list call -> world * list call -> Prop :=
| race_done : forall x, race_run id x x
| race_more : forall x y z, race_step id x y -> race_run id y z -> race_run id x z.

(** The calls as they arrive. *)
Definition arriving (drivers : list uuid) : list call :=
  map (fun who => mkCall who EmptyString at_driver_check) drivers.

Definition has_responded (c : call) : bool :=
  match stage_of c with
  | responded _ => true
  | _ => false
  end.

Definition succeeded (c : call) : bool :=
  match stage_of c with
  | responded (json _) => true
  | _ => false
  end.

Definition got_stale_offer (c : call) : bool :=
  match stage_of c with
  | responded (failure 409 e) => String.eqb e stale_offer_error
  | _ => false
  end.

(** The statements a call has still to run. *)
Definition remaining (c : call) : nat :=
  match stage_of c with
  | at_driver_check => 5
  | at_accept_statement => 4
  | at_mark_unavailable _ => 3
  | at_client_details _ => 2
  | at_commit _ _ => 1
  | responded _ => 0
  end.

(** A scheduler that always runs the first call that has not responded. *)
Fixpoint run_first (id : uuid) (now : Z) (cs : list call) (w : world)
  : option (list call * world) :=
  match cs with
  | [] => None
  | c :: rest =>
      match advance id now c w with
      | Some (c', w') => Some (c' :: rest, w')
      | None =>
          match run_first id now rest w with
          | Some (rest', w') => Some (c :: rest', w')
          | None => None
          end
      end
  end.

Fixpoint run_all (fuel : nat) (id : uuid) (now : Z) (cs : list call) (w : world)
  : list call * world :=
  match fuel with
  | O => (cs, w)
  | S k =>
      match run_first id now cs w with
      | Some (cs', w') => run_all k id now cs' w'
      | None => (cs, w)
      end
  end.

(** A call that has not reached the accept statement yet. *)
Definition waiting (c : call) : Prop :=
  stage_of c = at_driver_check \/ stage_of c = at_accept_statement.

(** A call that has lost, or will. *)
Definition turned_away (c : call) : Prop :=
  waiting c \/ stage_of c = responded (failure 409 stale_offer_error).

Definition accepted_answer (row : trip) (u : user) : response accepted_trip :=
  json (mkAcceptedTrip (trip_id row) (full_name u) (phone_number u)
                       (pickup_address row) (dropoff_address row)
                       (estimated_price row)).

(** The stages of the call whose accept statement matched, at time [tn], the
    pending row [t0] of the database [d0], and the database at each. *)
Definition winning
    (id : uuid) (d0 : db) (t0 : trip) (u0 : user)
    (winner : uuid) (tn : Z) (w : world) (c : call) : Prop :=
  let row := bind_driver winner tn t0 in
  let d1 := snd (accept_statement winner id tn d0) in
  let d2 := update_availability (Some winner) false d1 in
  let d3 :=
    insert_audit
      (mkAudit winner trip_accepted_action (trip_id row) (caller_ip c)) d2 in
  (stage_of c = at_mark_unavailable row /\ store w = d1)
  \/ (stage_of c = at_client_details row /\ store w = d2)
  \/ (stage_of c = at_commit row (Some u0) /\ store w = d2)
  \/ (stage_of c = responded (accepted_answer row u0) /\ store w = d3).

(** What every interleaving keeps: either no accept statement has matched and
    the database is untouched, or one has, its call walks the stages above,
    and every other call is turned away. *)
Inductive race_invariant
    (id : uuid) (d0 : db) (t0 : trip) (u0 : user) (drivers : list uuid)
  : world * list call -> Prop :=
| race_undecided :
    forall w cs,
      store w = d0 ->
      map caller cs = drivers ->
      Forall waiting cs ->
      race_invariant id d0 t0 u0 drivers (w, cs)
| race_won :
    forall winner tn w cs,
      In winner drivers ->
      map caller cs = drivers ->
      Forall (fun c => if uuid_eqb (caller c) winner
                       then winning id d0 t0 u0 winner tn w c
                       else turned_away c) cs ->
      race_invariant id d0 t0 u0 drivers (w, cs).

(** The statements all the calls have still to run. *)
Definition total_remaining (cs : list call) : nat :=
  list_sum (map remaining cs).

End AcceptRace.

(** ** The trips of the system over time *)

Module System.
Import Store Trips.

Section Actions.

Variable calculateDistance : Q -> Q -> Q -> Q -> Q.
Variable ST_Distance : point -> point -> Q.
Variable SUPPORT_PHONE : option string.

(** A call of one of the handlers that write the trips table. *)
Inductive action : Type :=
| Request (client_id : uuid) (ip : string) (body : request_body)
          (now : Date) (new_id : uuid)
| Accept (driver_id : uuid) (ip : string) (trip_id : uuid) (now : Z)
| SetStatus (user_id : uuid) (ip : string) (trip_id : uuid)
            (status : trip_status) (now : Z)
| Sos (user_id : uuid) (ip : string) (trip_id : uuid)
      (current_location : option point) (now : Z).

Definition perform (a : action) (d : db) : db :=
  match a with
  | Request client_id ip body now new_id =>
      snd (fst (post_request calculateDistance ST_Distance
                             client_id ip body now new_id d))
  | Accept driver_id ip trip_id now =>
      snd (fst (post_accept driver_id ip trip_id now d))
  | SetStatus user_id ip trip_id status now =>
      snd (fst (patch_status user_id ip trip_id status now d))
  | Sos user_id ip trip_id current_location now =>
      snd (fst (post_sos SUPPORT_PHONE user_id ip trip_id
                         current_location now d))
  end.

(** The databases the system can be in: it starts without trips, runs the
    handlers above, and whatever else runs (location reports, onboarding,
    administration) leaves the trips table alone. *)
Inductive reachable : db -> Prop :=
| reach_start : forall d, trips d = [] -> reachable d
| reach_handler : forall d a, reachable d -> reachable (perform a d)
| reach_elsewhere :
    forall d d', reachable d -> trips d' = trips d -> reachable d'.

End Actions.

(** What holds of every row: no driver while pending, a driver once
    accepted. *)
Definition unbound_while_pending (t : trip) : Prop :=
  (status t = pending -> driver_id t = None)
  /\ (status t = accepted -> driver_id t <> None).

(** The statuses in which the specification has a driver bound. *)
Definition driver_expected (s : trip_status) : bool :=
  match s with
  | accepted | driver_arriving | in_progress | completed => true
  | _ => false
  end.

End System.

(** ** Sample data

    A small database on which the handlers are run in the examples below. *)

Module Fixtures.
Import Store Trips.

(** A planar stand-in for the geodesic distance, in metres and in
    kilometres; 111 km to the degree. *)
Definition flat_metres (a b : point) : Q :=
  (Qabs (latitude a - latitude b) + Qabs (longitude a - longitude b)) * 111000.

Definition flat_km (lat1 lon1 lat2 lon2 : Q) : Q :=
  (Qabs (lat2 - lat1) + Qabs (lon2 - lon1)) * 111.

Definition rider : uuid := 1%nat.
Definition first_driver : uuid := 2%nat.
Definition second_driver : uuid := 3%nat.
Definition unapproved_driver : uuid := 4%nat.
Definition the_trip : uuid := 10%nat.

Definition westlands : point := mkPoint (36817223 # 1000000) (- (1286389 # 1000000)).
Definition kilimani : point := mkPoint (36821945 # 1000000) (- (1292066 # 1000000)).

Definition people : list user :=
  [mkUser rider "Rider" "+254712345678" client active;
   mkUser first_driver "First Driver" "+254700000002" driver active;
   mkUser second_driver "Second Driver" "+254700000003" driver active;
   mkUser unapproved_driver "New Driver" "+254700000004" driver active].

Definition profiles : list driver_profile :=
  [mkDriver first_driver approved true (Some westlands) (Some 990%Z) 5 150 None;
   mkDriver second_driver approved true (Some kilimani) (Some 995%Z) 4 20 None;
   mkDriver unapproved_driver awaiting_review true (Some westlands) (Some 999%Z)
            0 0 None].

(** A trip as [POST /request] leaves it. *)
Definition requested_trip : trip :=
  mkTrip the_trip rider None
         westlands "Westlands, Nairobi" kilimani "Kilimani, Nairobi"
         (52 # 10) 9 560 None
         pending
         900 None None None None
         false None 900.

Definition with_requested_trip : db :=
  mkDb people profiles [requested_trip] [Pricing.defaultConfig] [].

(** The same database once the first driver has accepted the trip. *)
Definition with_accepted_trip : db :=
  snd (fst (post_accept first_driver "10.0.0.2" the_trip 1000
                        with_requested_trip)).

(** A cancelled trip as a database may hold one, and a database that holds
    it: the trip above, bound to the first driver and cancelled by the
    rider. *)
Definition cancelled_trip : trip :=
  mkTrip the_trip rider (Some first_driver)
         westlands "Westlands, Nairobi" kilimani "Kilimani, Nairobi"
         (52 # 10) 9 560 None
         cancelled_by_client
         900 (Some 1000%Z) None None (Some 1100%Z)
         false None 1100.

Definition with_cancelled_trip : db :=
  with_trips [cancelled_trip] with_accepted_trip.

(** Request bodies: inside Nairobi, in Mombasa, beyond the pole, and on the
    equator. *)
Definition nairobi_request : request_body :=
  mkRequest
    (Some (mkLocation (Some (- (1286389 # 1000000))) (Some (36817223 # 1000000))
                      (Some "Westlands, Nairobi"%string)))
    (Some (mkLocation (Some (- (1292066 # 1000000))) (Some (36821945 # 1000000))
                      (Some "Kilimani, Nairobi"%string))).



Definition equator_request : request_body :=
  mkRequest
    (Some (mkLocation (Some 0) (Some (3707 # 100))
                      (Some "Nanyuki, on the equator"%string)))
    (Some (mkLocation (Some (1 # 100)) (Some (3708 # 100))
                      (Some "Nanyuki town"%string))).

Definition wednesday_noon : Date := mkDate Wednesday 12 1000.

(** A story from the start: the request, the acceptance, and the call by
    which the rider means to cancel. *)
Definition no_trips_yet : db :=
  mkDb people profiles [] [Pricing.defaultConfig] [].

Definition the_story : list System.action :=
  [System.Request rider "10.0.0.1" nairobi_request wednesday_noon the_trip;
   System.Accept first_driver "10.0.0.2" the_trip 1000;
   System.SetStatus rider "10.0.0.1" the_trip cancelled_by_client 1100].

Definition after_cancellation : db :=
  fold_left (fun d a => System.perform flat_km flat_metres None a d)
            the_story no_trips_yet.

(** Its one trip. *)
Definition storied_trip : trip :=
  Eval vm_compute in hd requested_trip (trips after_cancellation).

(** Another story: the request, and the rider who sets the trip to
    driver_arriving before any driver has accepted it. *)
Definition the_early_arrival : list System.action :=
  [System.Request rider "10.0.0.1" nairobi_request wednesday_noon the_trip;
   System.SetStatus rider "10.0.0.1" the_trip driver_arriving 1100].

Definition after_early_arrival : db :=
  fold_left (fun d a => System.perform flat_km flat_metres None a d)
            the_early_arrival no_trips_yet.

Definition early_arrival_trip : trip :=
  Eval vm_compute in hd requested_trip (trips after_early_arrival).

End Fixtures.

(** ** backend/src/utils/location.js: the location of one driver *)

Module Presence.
Import JS Store Trips.

(** The [SET] clause of [updateDriverLocation] on one row. *)
Definition move_driver (p : point) (now : Z) (row : driver_profile)
  : driver_profile :=
  mkDriver (dp_user_id row) (approval_status row) (is_available row)
           (Some p) (Some now)
           (rating_average row) (total_trips row) (profile_photo_url row).

(** [updateDriverLocation(driverId, latitude, longitude)], run at the database
    time [now]: the value it resolves to and the database afterwards.  The
    [catch] branch, which resolves to [false], is reached on a database
    failure only.  The column is a GEOGRAPHY: it keeps a point that
    [validateCoordinates] admits as it is given, and moves any other point
    into the ranges (a latitude of 95 is kept as 85, a longitude of 200 as
    -160).  The row below holds the point as given, so what is said of the
    coordinates read back is said of points within the ranges. *)
Definition updateDriverLocation
    (driverId : uuid) (latitude longitude : Q) (now : Z) (d : db) : bool * db :=
  (true,
   with_driver_profiles
     (map (fun row => if uuid_eqb (dp_user_id row) driverId
                      then move_driver (mkPoint longitude latitude) now row
                      else row)
          (driver_profiles d))
     d).

(** What [getDriverLocation] resolves to when it is not [null]. *)
Record driver_location : Type := mkDriverLocation {
  dl_latitude : Q;
  dl_longitude : Q;
  dl_last_updated : option Z
}.

(** [getDriverLocation(driverId)].  [ST_Y] and [ST_X] of a NULL location are
    NULL. *)
Definition getDriverLocation (driverId : uuid) (d : db)
  : option driver_location :=
  match select_driver driverId d with
  | None => None
  | Some row =>
      let latitude := option_map Store.latitude (current_location row) in
      let longitude := option_map Store.longitude (current_location row) in
      if negb (truthy latitude) || negb (truthy longitude)
      then None
      else Some (mkDriverLocation (number_of latitude) (number_of longitude)
                                  (last_location_update row))
  end.

(** Two rows that differ at most in where the driver is and when he said
    so. *)
Definition same_standing (a b : driver_profile) : Prop :=
  dp_user_id a = dp_user_id b
  /\ approval_status a = approval_status b
  /\ is_available a = is_available b
  /\ rating_average a = rating_average b
  /\ total_trips a = total_trips b
  /\ profile_photo_url a = profile_photo_url b.

End Presence.

(** ** backend/src/routes/trips.js: POST /:trip_id/location and GET /history *)

Module TripsMore.
Import JS Store Trips.

(** A row of [trip_locations]. *)
Record trip_location : Type := mkTripLocation {
  tl_trip_id : uuid;
  tl_location : point;
  tl_speed_kmh : option Q;
  tl_heading : option Q;
  tl_recorded_at : Z
}.

(** The [driver_location_update] event and the trip whose room it goes to. *)
Record location_broadcast : Type := mkBroadcast {
  lb_room_trip : uuid;
  lb_lat : Q;
  lb_lon : Q;
  lb_speed_kmh : option Q;
  lb_heading : option Q;
  lb_timestamp : Z
}.

Definition location_refused_error : string :=
  "Not authorized or trip not in progress".
Definition location_failed_error : string := "Failed to update location".
Definition history_failed_error : string := "Failed to fetch trip history".

(** [WHERE id = $1 AND driver_id = $2 AND status = $3]. *)
Definition active_trip_of (trip_id driver_id : uuid) (t : trip) : bool :=
  uuid_eqb (Store.trip_id t) trip_id
  && column_is (Store.driver_id t) driver_id
  && status_eqb (status t) in_progress.

(** A DECIMAL(5,2) column takes a number rounded to two decimals, a half
    going away from zero, and refuses it ([numeric field overflow]) when the
    rounded value needs more than three digits before the point.  The number
    is the decimal the request writes it as. *)
Definition decimal_5_2 (x : Q) : option Q :=
  let hundredths := Pricing.round_half_away (x * 100) in
  if (Z.abs hundredths <? 100000)%Z
  then Some (inject_Z hundredths / 100)
  else None.

(** The parameter of such a column, [undefined] being bound as NULL: what
    the column holds, when the database takes the value. *)
Definition bound_decimal_5_2 (x : option Q) : option (option Q) :=
  match x with
  | None => Some None
  | Some v =>
      match decimal_5_2 v with
      | Some stored => Some (Some stored)
      | None => None
      end
  end.

(** [POST /:trip_id/location].  The handler reads the trips and writes the
    trail of [trip_locations].  An absent coordinate makes the point NULL,
    which the NOT NULL column refuses, and a speed or a heading may be
    refused by its column: the failure is caught, and nothing has been
    stored or broadcast.  The point is held as given, which is what the
    GEOGRAPHY column does with the points [validateCoordinates] admits. *)
Definition post_location
    (driver_id : uuid) (trip_id : uuid)
    (latitude longitude : option Q) (speed_kmh heading : option Q)
    (now : Z) (d : db) (trail : list trip_location)
  : response unit * list trip_location * list location_broadcast :=
  (* Verify this is the driver's active trip *)
  let tripCheck := filter (active_trip_of trip_id driver_id) (trips d) in
  match tripCheck with
  | [] => (failure 403 location_refused_error, trail, [])
  | _ :: _ =>
      (* Store location *)
      match latitude, longitude,
            bound_decimal_5_2 speed_kmh, bound_decimal_5_2 heading with
      | Some lat, Some lon, Some stored_speed, Some stored_heading =>
          let trail :=
            trail ++ [mkTripLocation trip_id (mkPoint lon lat)
                                     stored_speed stored_heading now] in
          (* Broadcast location via Socket.io *)
          (json tt, trail,
           [mkBroadcast trip_id lat lon speed_kmh heading now])
      | _, _, _, _ => (failure 500 location_failed_error, trail, [])
      end
  end.

(** [ORDER BY t.created_at DESC]; [created_at] and [requested_at] are both
    the time of the INSERT of the row, and the row of the embedding keeps
    the second. *)
Fixpoint insert_by_recency (t : trip) (l : list trip) : list trip :=
  match l with
  | [] => [t]
  | x :: rest =>
      if (requested_at x <=? requested_at t)%Z
      then t :: x :: rest
      else x :: insert_by_recency t rest
  end.

Definition order_by_recency (l : list trip) : list trip :=
  fold_right insert_by_recency [] l.

(** The order of a page of history. *)
Definition newer_first (a b : trip) : Prop :=
  (requested_at b <= requested_at a)%Z.

Record history_page : Type := mkHistory {
  hp_trips : list trip;
  hp_page : Z;
  hp_limit : Z;
  hp_total : nat
}.

(** [t.${userField} = $1], with [userField] chosen by the type of the
    caller. *)
Definition in_history_of (user_id : uuid) (kind : user_type) (t : trip) : bool :=
  match kind with
  | driver => column_is (driver_id t) user_id
  | _ => uuid_eqb (client_id t) user_id
  end.

(** The largest BIGINT, the type of the parameters of LIMIT and OFFSET, and
    the integers a JavaScript number holds exactly. *)
Definition bigint_max : Z := 9223372036854775807.

Definition safe_integer (z : Z) : Prop :=
  (- 9007199254740991 <= z <= 9007199254740991)%Z.

(** [GET /history] with the query parameters as integers.  The names and the
    rating joined to each row are left out of it; the join with the client
    drops a trip whose client is not on record.  A LIMIT or an OFFSET that is
    negative or beyond BIGINT is an error of the database, caught.  The
    offset is a product of JavaScript numbers, which is the product of the
    integers as long as the three of them are safe integers. *)
Definition get_history
    (user_id : uuid) (kind : user_type) (page limit : Z) (d : db)
  : response history_page :=
  let offset := ((page - 1) * limit)%Z in
  if ((limit <? 0) || (offset <? 0)
      || (bigint_max <? limit) || (bigint_max <? offset))%Z
  then failure 500 history_failed_error
  else
    let rows :=
      firstn (Z.to_nat limit)
        (skipn (Z.to_nat offset)
           (order_by_recency
              (filter
                 (fun t =>
                    in_history_of user_id kind t
                    && existsb (fun c => uuid_eqb (client_id t) (Store.user_id c))
                               (users d))
                 (trips d)))) in
    let count :=
      List.length (filter (in_history_of user_id kind) (trips d)) in
    json (mkHistory rows page limit count).

End TripsMore.

(** ** How a row of trips changes over its life *)

Module Lifecycle.
Import Store Trips.

(** What no handler changes of a trip, and what it changes one way only: the
    driver, once bound, stays, and pending is never entered again. *)
Definition evolves (a b : trip) : Prop :=
  trip_id b = trip_id a
  /\ client_id b = client_id a
  /\ pickup_location b = pickup_location a
  /\ pickup_address b = pickup_address a
  /\ dropoff_location b = dropoff_location a
  /\ dropoff_address b = dropoff_address a
  /\ estimated_distance_km b = estimated_distance_km a
  /\ estimated_duration_min b = estimated_duration_min a
  /\ estimated_price b = estimated_price a
  /\ requested_at b = requested_at a
  /\ (forall who, driver_id a = Some who -> driver_id b = Some who)
  /\ (status a <> pending -> status b <> pending).

(** Two driver rows that differ at most in availability. *)
Definition same_but_availability (a b : driver_profile) : Prop :=
  dp_user_id b = dp_user_id a
  /\ approval_status b = approval_status a
  /\ current_location b = current_location a
  /\ last_location_update b = last_location_update a
  /\ rating_average b = rating_average a
  /\ total_trips b = total_trips a
  /\ profile_photo_url b = profile_photo_url a.

(** A trip that has not started: it is waiting for a driver or for the
    pick-up, and none of its later times is set. *)
Definition not_started (t : trip) : Prop :=
  (status t = pending \/ status t = accepted \/ status t = driver_arriving)
  /\ started_at t = None
  /\ completed_at t = None
  /\ cancelled_at t = None.

End Lifecycle.

(** ** mobile/src/screens/client/TripTrackingScreen.js

    The state the screen keeps and the two socket listeners that write it. *)

Module Tracking.
Import Store.

Record coordinate : Type := mkCoordinate {
  c_latitude : Q;
  c_longitude : Q
}.

Record screen : Type := mkScreen {
  driverLocation : option coordinate;
  tripStatus : trip_status;
  routeCoordinates : list coordinate
}.

(** [useState(null)], [useState('accepted')], [useState([])]. *)
Definition initial_screen : screen := mkScreen None accepted [].

Inductive socket_event : Type :=
| driver_location_update (latitude longitude : Q)
| trip_status_change (status : trip_status).

Definition on_event (s : screen) (e : socket_event) : screen :=
  match e with
  | driver_location_update latitude longitude =>
      let newLocation := mkCoordinate latitude longitude in
      (* setDriverLocation(newLocation); add to route trail *)
      mkScreen (Some newLocation) (tripStatus s)
               (routeCoordinates s ++ [newLocation])
  | trip_status_change status =>
      mkScreen (driverLocation s) status (routeCoordinates s)
  end.

Definition after_events (l : list socket_event) : screen :=
  fold_left on_event l initial_screen.

(** The positions among the events, in the order received. *)
Definition positions (l : list socket_event) : list coordinate :=
  flat_map (fun e => match e with
                     | driver_location_update latitude longitude =>
                         [mkCoordinate latitude longitude]
                     | trip_status_change _ => []
                     end) l.

Definition getStatusText (s : screen) : string :=
  match tripStatus s with
  | accepted => "Driver is on the way"
  | driver_arriving => "Driver is arriving"
  | in_progress => "Trip in progress"
  | _ => "Trip active"
  end.

End Tracking.

(** * Properties *)

(** ** Pricing *)

Module PricingFacts.
Import JS Pricing.

Local Open Scope Q_scope.

Lemma night_test_is_night_hour :
  forall h : Z, (0 <= h < 24)%Z ->
    ((h >=? 22) || (h <? 6))%Z = night_hour h.
Proof.
  intros h Hh. unfold night_hour. rewrite Z.geb_leb.
  destruct (Z.leb_spec 22 h), (Z.ltb_spec h 6), (Z.ltb_spec h 24),
           (Z.leb_spec 0 h); simpl; try reflexivity; lia.
Qed.

Lemma weekend_test_is_weekend_day :
  forall t : Date,
    ((getDay t =? 0) || (getDay t =? 6))%Z = weekend_day (date_weekday t).
Proof.
  intros [w h i]. unfold getDay. simpl. destruct w; reflexivity.
Qed.

Lemma Math_max_spec :
  forall x y : Q, x <= Math_max x y /\ y <= Math_max x y
                  /\ (Math_max x y == x \/ Math_max x y == y).
Proof.
  intros x y. unfold Math_max.
  destruct (Qle_bool x y) eqn:E.
  - apply Qle_bool_iff in E. repeat split; auto using Qle_refl.
    right. reflexivity.
  - assert (H : ~ x <= y) by (rewrite <- Qle_bool_iff, E; discriminate).
    apply Qnot_le_lt in H. repeat split; auto using Qle_refl, Qlt_le_weak.
    left. reflexivity.
Qed.

Lemma Math_max_clamp :
  forall p m : Q, Math_max p m == (if Qle_bool m p then p else m).
Proof.
  intros p m. unfold Math_max.
  destruct (Qle_bool p m) eqn:E1, (Qle_bool m p) eqn:E2; try reflexivity.
  - apply Qle_bool_iff in E1. apply Qle_bool_iff in E2.
    apply Qle_antisym; assumption.
  - assert (H1 : ~ p <= m) by (rewrite <- Qle_bool_iff, E1; discriminate).
    assert (H2 : ~ m <= p) by (rewrite <- Qle_bool_iff, E2; discriminate).
    apply Qnot_le_lt in H1. apply Qlt_le_weak in H1. contradiction.
Qed.

Lemma Math_round_compat :
  forall x y : Q, x == y -> Math_round x = Math_round y.
Proof.
  intros x y H. unfold Math_round. f_equal. apply Qfloor_comp.
  rewrite H. reflexivity.
Qed.

Lemma Math_round_monotone :
  forall x y : Q, x <= y -> Math_round x <= Math_round y.
Proof.
  intros x y H. unfold Math_round. rewrite <- Zle_Qle.
  apply Qfloor_resp_le. apply Qplus_le_l. exact H.
Qed.

(** [Math.round] is within a half of its argument. *)
Lemma Math_round_nearest :
  forall x : Q, x - (1 # 2) < Math_round x /\ Math_round x <= x + (1 # 2).
Proof.
  intro x. unfold Math_round. split.
  - pose proof (Qlt_floor (x + (1 # 2))) as H.
    rewrite inject_Z_plus in H.
    apply Qplus_lt_l with (z := 1). 
    eapply Qle_lt_trans; [| exact H].
    ring_simplify. apply Qle_refl.
  - apply Qfloor_le.
Qed.

Lemma round_half_away_nonneg :
  forall q : Q, 0 <= q -> inject_Z (round_half_away q) = Math_round q.
Proof.
  intros q H. unfold round_half_away, Math_round.
  apply Qle_bool_iff in H. rewrite H. reflexivity.
Qed.

Lemma unclamped_price_unfold :
  forall d t c,
    calculatePrice d t c
    = Math_round (Math_max (unclamped_price d t c) (minimum_price c) / 10) * 10.
Proof. reflexivity. Qed.

(** In exact arithmetic the code and the wording of the specification agree
    as soon as the minimum fare is not negative. *)
Lemma calculatePrice_refines_estimate :
  forall (d : Q) (t : Date) (c : pricing_config),
    valid_Date t -> 0 <= minimum_price c ->
    calculatePrice d t c == estimate_spec d t c.
Proof.
  intros d t c Ht Hmin.
  unfold calculatePrice, estimate_spec.
  unfold getHours. rewrite (night_test_is_night_hour Ht).
  rewrite weekend_test_is_weekend_day.
  set (p := if weekend_day (date_weekday t) then _ else _).
  assert (Hclamp := Math_max_clamp p (minimum_price c)).
  set (q := if Qle_bool (minimum_price c) p then p else minimum_price c) in *.
  assert (Hq : 0 <= q / 10).
  { apply Qle_shift_div_l; [reflexivity |]. rewrite Qmult_0_l.
    unfold q. destruct (Qle_bool (minimum_price c) p) eqn:E.
    - apply Qle_bool_iff in E. eapply Qle_trans; eassumption.
    - assumption. }
  rewrite (round_half_away_nonneg Hq).
  rewrite (@Math_round_compat (Math_max p (minimum_price c) / 10) (q / 10)).
  - reflexivity.
  - rewrite Hclamp. reflexivity.
Qed.





End PricingFacts.

(** ** The estimate on IEEE doubles *)

Module Binary64Facts.
Import Floats.PrimFloat.
Import Pricing Binary64 PricingFacts.

(** C5, as amended.  For every distance, every time and every pricing
    configuration, [calculatePrice] returns the estimate as the
    specification words it, computed in the arithmetic of doubles: base +
    distanceKm * perKm, multiplied by the night multiplier when the local
    hour is in [22,24) or [0,6), then by the weekend multiplier on Saturday
    or Sunday, clamped below by the minimum fare and rounded to the nearest
    multiple of 10, a tie going up.  With the default configuration it
    yields 550 for (5 km, Tuesday 20:00), 830 for (5 km, Tuesday 23:00), 660
    for (5 km, Saturday 14:00) and 1440 for (10 km, Sunday 01:00). *)
Theorem calculatePrice_is_estimate :
  forall (distanceKm : float) (atTime : Date) (config : pricing_config),
    valid_Date atTime ->
    calculatePrice distanceKm atTime config
    = estimate distanceKm atTime config
    /\ calculatePrice 5 tuesday_20h defaultConfig = 550%float
    /\ calculatePrice 5 tuesday_23h defaultConfig = 830%float
    /\ calculatePrice 5 saturday_14h defaultConfig = 660%float
    /\ calculatePrice 10 sunday_01h defaultConfig = 1440%float.
Proof.
  intros d t c Ht. split.
  - unfold calculatePrice, estimate, nearest_ten, getHours.
    rewrite (night_test_is_night_hour Ht).
    rewrite weekend_test_is_weekend_day. reflexivity.
  - repeat split; vm_compute; reflexivity.
Qed.

Lemma calculatePrice_is_estimate_witness :
  calculatePrice 5 tuesday_20h defaultConfig
  = estimate 5 tuesday_20h defaultConfig
  /\ calculatePrice 5 tuesday_20h defaultConfig = 550%float
  /\ calculatePrice 5 tuesday_23h defaultConfig = 830%float
  /\ calculatePrice 5 saturday_14h defaultConfig = 660%float
  /\ calculatePrice 10 sunday_01h defaultConfig = 1440%float.
Proof.
  apply (@calculatePrice_is_estimate 5%float tuesday_20h defaultConfig).
  unfold valid_Date. simpl. lia.
Defined.

(** C5 as first stated does not hold.  At (5 km, Tuesday 23:00) the amount
    825 is rounded to 830, and at (10 km, Sunday 01:00) the formula gives
    (300 + 10 * 50) * 1.5 * 1.2 = 1440, not 1980.  And the formula is
    computed on doubles: at 32.3 km on a Tuesday at 20:00 the amount handed
    to the rounding is just under 1915 and the code returns 1910, where the
    formula on the decimals is the tie 1915 and gives 1920. *)
Lemma documented_examples_not_returned :
  calculatePrice 5 tuesday_23h defaultConfig <> 825%float
  /\ calculatePrice 10 sunday_01h defaultConfig <> 1980%float
  /\ calculatePrice (parseFloat (323 # 10)) tuesday_20h defaultConfig
     = 1910%float
  /\ (estimate_spec (323 # 10) tuesday_20h defaultConfig == 1920)%Q.
Proof.
  split; [| split; [| split]].
  - intro H. apply (f_equal (fun x => eqb x 825)) in H.
    vm_compute in H. discriminate H.
  - intro H. apply (f_equal (fun x => eqb x 1980)) in H.
    vm_compute in H. discriminate H.
  - vm_compute. reflexivity.
  - vm_compute. reflexivity.
Qed.

(** The duration the request handler stores, [Math.round(distance / 0.6)],
    is not always what [calculateEstimatedTime] returns for the same
    distance: at 8.1 km the first is 14 and the second 13. *)
Lemma stored_duration_differs :
  Math_round (parseFloat (81 # 10) / parseFloat (6 # 10)) = 14%float
  /\ calculateEstimatedTime (parseFloat (81 # 10)) = 13%float.
Proof. split; vm_compute; reflexivity. Qed.

End Binary64Facts.

(** ** The candidate query *)

Module LocationFacts.
Import JS Store Location.

Local Open Scope Q_scope.

Lemma insert_by_distance_In :
  forall r x l, In x (insert_by_distance r l) <-> x = r \/ In x l.
Proof.
  intros r x l. induction l as [| y l IH]; simpl.
  - intuition.
  - destruct (Qle_bool (nr_distance_km r) (nr_distance_km y)); simpl.
    + intuition.
    + rewrite IH. intuition.
Qed.

Lemma order_by_distance_In :
  forall x l, In x (order_by_distance l) <-> In x l.
Proof.
  intros x l. induction l as [| y l IH]; simpl.
  - reflexivity.
  - rewrite insert_by_distance_In, IH. intuition.
Qed.

Lemma insert_by_distance_sorted :
  forall r l, StronglySorted nearer l ->
              StronglySorted nearer (insert_by_distance r l).
Proof.
  intros r l Hs. induction Hs as [| y l Hs IH Hall]; simpl.
  - constructor; constructor.
  - destruct (Qle_bool (nr_distance_km r) (nr_distance_km y)) eqn:E.
    + apply Qle_bool_iff in E.
      constructor; [constructor; assumption |].
      constructor; [exact E |].
      rewrite Forall_forall in *. intros z Hz.
      unfold nearer in *. eapply Qle_trans; [exact E | apply Hall, Hz].
    + assert (Hyr : nr_distance_km y <= nr_distance_km r).
      { apply Qlt_le_weak, Qnot_le_lt.
        rewrite <- Qle_bool_iff, E. discriminate. }
      constructor; [exact IH |].
      rewrite Forall_forall in *. intros z Hz.
      apply insert_by_distance_In in Hz. destruct Hz as [-> | Hz].
      * exact Hyr.
      * apply Hall, Hz.
Qed.

Lemma order_by_distance_sorted :
  forall l, StronglySorted nearer (order_by_distance l).
Proof.
  induction l as [| y l IH]; simpl.
  - constructor.
  - apply insert_by_distance_sorted, IH.
Qed.

Lemma order_by_distance_length :
  forall l, List.length (order_by_distance l) = List.length l.
Proof.
  assert (H : forall r l,
             List.length (insert_by_distance r l) = S (List.length l)).
  { intros r l. induction l as [| y l IH]; simpl; [reflexivity |].
    destruct (Qle_bool (nr_distance_km r) (nr_distance_km y)); simpl;
      [reflexivity | now rewrite IH]. }
  induction l as [| y l IH]; simpl; [reflexivity |].
  now rewrite H, IH.
Qed.

Lemma firstn_incl :
  forall (A : Type) (n : nat) (l : list A) (x : A),
    In x (firstn n l) -> In x l.
Proof.
  intros A n. induction n as [| n IH]; intros [| y l] x; simpl;
    try contradiction.
  intros [-> | H]; [left; reflexivity | right; apply IH, H].
Qed.

Lemma firstn_sorted :
  forall (A : Type) (R : A -> A -> Prop) (n : nat) (l : list A),
    StronglySorted R l -> StronglySorted R (firstn n l).
Proof.
  intros A R n. induction n as [| n IH]; intros l Hs; simpl.
  - constructor.
  - destruct Hs as [| y l Hs Hall]; [constructor |].
    constructor; [apply IH, Hs |].
    rewrite Forall_forall in *. intros z Hz.
    apply Hall. eapply firstn_incl, Hz.
Qed.

Lemma map_sorted :
  forall (A B : Type) (R : A -> A -> Prop) (S : B -> B -> Prop) (f : A -> B),
    (forall a b, R a b -> S (f a) (f b)) ->
    forall l, StronglySorted R l -> StronglySorted S (map f l).
Proof.
  intros A B R S f Hf l Hs. induction Hs as [| y l Hs IH Hall]; simpl.
  - constructor.
  - constructor; [exact IH |].
    rewrite Forall_forall in *. intros z Hz.
    apply in_map_iff in Hz. destruct Hz as [a [<- Ha]].
    apply Hf, Hall, Ha.
Qed.

Lemma toFixed1_monotone :
  forall x y : Q, x <= y -> (toFixed1_tenths x <= toFixed1_tenths y)%Z.
Proof.
  intros x y H. unfold toFixed1_tenths. apply Qfloor_resp_le.
  apply Qplus_le_l. apply Qmult_le_compat_r; [exact H | discriminate].
Qed.

Section Query.

Variable ST_Distance : point -> point -> Q.

(** What the [WHERE] clause and the join leave of the tables. *)
Lemma nearby_select_In :
  forall origin metres now d r,
    In r (nearby_select ST_Distance origin metres now d) ->
    exists dp u loc,
      In dp (driver_profiles d) /\ In u (users d)
      /\ dp_user_id dp = user_id u
      /\ nearby_where ST_Distance origin metres now dp u = true
      /\ current_location dp = Some loc
      /\ r = mkNearby (dp_user_id dp) (full_name u) (phone_number u)
                      (rating_average dp) (total_trips dp)
                      (profile_photo_url dp)
                      (ST_Distance loc origin / 1000)
                      (latitude loc) (longitude loc).
Proof.
  intros origin metres now d r H. unfold nearby_select in H.
  apply in_flat_map in H. destruct H as [dp [Hdp H]].
  apply in_flat_map in H. destruct H as [u [Hu H]].
  destruct (uuid_eqb (dp_user_id dp) (user_id u)) eqn:Eid; simpl in H;
    [| contradiction].
  destruct (nearby_where ST_Distance origin metres now dp u) eqn:Ew;
    [| contradiction].
  destruct (current_location dp) as [loc |] eqn:Eloc; [| contradiction].
  destruct H as [<- | []].
  exists dp, u, loc. apply Nat.eqb_eq in Eid. repeat split; assumption.
Qed.

Lemma nearby_where_true :
  forall origin metres now dp u,
    nearby_where ST_Distance origin metres now dp u = true ->
    is_available dp = true
    /\ approval_status dp = approved
    /\ account_status u = active
    /\ (exists loc, current_location dp = Some loc
                    /\ ST_Distance loc origin <= metres)
    /\ (exists t, last_location_update dp = Some t
                  /\ (now - freshness_window < t)%Z).
Proof.
  intros origin metres now dp u H. unfold nearby_where in H.
  repeat (apply andb_true_iff in H; destruct H as [H ?]).
  repeat split; try assumption.
  - destruct (approval_status dp); simpl in *; congruence.
  - destruct (account_status u); simpl in *; congruence.
  - destruct (current_location dp) as [loc |]; [| discriminate].
    exists loc. split; [reflexivity |]. now apply Qle_bool_iff.
  - destruct (last_location_update dp) as [t |]; [| discriminate].
    exists t. split; [reflexivity |]. now apply Z.ltb_lt.
Qed.

Lemma nearby_query_In :
  forall origin metres now d r,
    In r (nearby_query ST_Distance origin metres now d) ->
    In r (nearby_select ST_Distance origin metres now d).
Proof.
  intros origin metres now d r H. unfold nearby_query in H.
  apply firstn_incl in H. rewrite order_by_distance_In in H. exact H.
Qed.

Lemma nearby_query_sorted :
  forall origin metres now d,
    StronglySorted nearer (nearby_query ST_Distance origin metres now d).
Proof.
  intros. unfold nearby_query.
  apply firstn_sorted, order_by_distance_sorted.
Qed.

End Query.

(** C6.  For every point and radius, [findNearbyDrivers] returns only
    drivers that are available, approved, and whose last location update is
    within the 10-minute freshness window (so a stale driver is never
    returned, however near); the drivers come in ascending order of their
    distance from the query point, in the rows of the query and in the
    distances printed; and there are at most 20 of them. *)
Theorem findNearbyDrivers_candidates :
  forall (ST_Distance : point -> point -> Q)
         (lat lon radiusKm : Q) (now : Z) (d : db),
    let origin := mkPoint lon lat in
    let rows := nearby_query ST_Distance origin (radiusKm * 1000) now d in
    let found := findNearbyDrivers ST_Distance lat lon radiusKm now d in
    (forall c, In c found ->
       exists dp loc t,
         In dp (driver_profiles d)
         /\ dp_user_id dp = id c
         /\ is_available dp = true
         /\ approval_status dp = approved
         /\ last_location_update dp = Some t
         /\ (now - 600 < t)%Z
         /\ current_location dp = Some loc
         /\ ST_Distance loc origin <= radiusKm * 1000
         /\ distance_km c = toFixed1_tenths (ST_Distance loc origin / 1000))
    /\ found = map present_driver rows
    /\ StronglySorted nearer rows
    /\ StronglySorted (fun a b => (distance_km a <= distance_km b)%Z) found
    /\ (List.length found <= 20)%nat.
Proof.
  intros ST_Distance lat lon radiusKm now d origin rows found.
  split; [| split; [| split; [| split]]].
  - intros c Hc. unfold found, findNearbyDrivers in Hc.
    apply in_map_iff in Hc. destruct Hc as [r [<- Hr]].
    apply nearby_query_In, nearby_select_In in Hr.
    destruct Hr as [dp [u [loc [Hdp [_ [_ [Hw [Hloc ->]]]]]]]].
    apply nearby_where_true in Hw.
    destruct Hw as [Ha [Hp [_ [[loc' [Hloc' Hin]] [t [Ht Hfresh]]]]]].
    rewrite Hloc in Hloc'. injection Hloc' as <-.
    exists dp, loc, t. simpl. repeat split; assumption.
  - reflexivity.
  - apply nearby_query_sorted.
  - unfold found, findNearbyDrivers.
    apply map_sorted with (R := nearer); [| apply nearby_query_sorted].
    intros a b Hab. simpl. apply toFixed1_monotone, Hab.
  - unfold found, findNearbyDrivers, nearby_query.
    rewrite length_map. apply firstn_le_length.
Qed.

(** A stale driver standing on the query point is left out, and a fresh one
    further away is returned. *)
Example stale_nearest_driver_is_skipped :
  let d :=
    mkDb Fixtures.people
         [mkDriver Fixtures.first_driver approved true
                   (Some Fixtures.westlands) (Some 0%Z) 5 150 None;
          mkDriver Fixtures.second_driver approved true
                   (Some Fixtures.kilimani) (Some 950%Z) 4 20 None]
         [] [] [] in
  map id (findNearbyDrivers Fixtures.flat_metres
                            (latitude Fixtures.westlands)
                            (longitude Fixtures.westlands) 5 1000 d)
  = [Fixtures.second_driver].
Proof. vm_compute. reflexivity. Qed.

End LocationFacts.

(** ** The handlers of trips.js *)

Module TripsFacts.
Import JS Store Location Trips.

Lemma truthy_zero : forall x : option Q, is_zero x -> truthy x = false.
Proof.
  intros x [q [-> Hq]]. simpl. unfold truthy_number.
  apply Qeq_bool_iff in Hq. rewrite Hq. reflexivity.
Qed.

Lemma zero_coordinate_rejected :
  forall body, has_zero_coordinate body -> locations_rejected body = true.
Proof.
  intros body H. unfold locations_rejected.
  destruct H as [H | [H | [H | H]]]; apply truthy_zero in H; rewrite H; simpl;
    repeat rewrite orb_true_r; reflexivity.
Qed.

(** C10.  Any request whose pickup or dropoff has latitude exactly 0 or
    longitude exactly 0 is answered 400, invalid location, with nothing
    written and nothing sent: the guard tests the coordinates for truthiness,
    and the number 0 is falsy.  Such requests exist with every coordinate in
    its valid range. *)
Theorem zero_coordinate_request_rejected :
  forall (calculateDistance : Q -> Q -> Q -> Q -> Q)
         (ST_Distance : point -> point -> Q)
         (client_id : uuid) (ip : string) (body : request_body)
         (now : Date) (new_id : uuid) (d : db),
    has_zero_coordinate body ->
    post_request calculateDistance ST_Distance client_id ip body now new_id d
    = (failure 400 invalid_location_error, d, []).
Proof.
  intros cd sd client_id ip body now new_id d H.
  unfold post_request. rewrite (zero_coordinate_rejected H). reflexivity.
Qed.

Lemma zero_coordinate_request_rejected_witness :
  coordinates_in_range Fixtures.equator_request = true
  /\ post_request Fixtures.flat_km Fixtures.flat_metres Fixtures.rider
                  "10.0.0.1" Fixtures.equator_request Fixtures.wednesday_noon
                  11%nat Fixtures.with_requested_trip
     = (failure 400 invalid_location_error, Fixtures.with_requested_trip, []).
Proof.
  split.
  - reflexivity.
  - apply (@zero_coordinate_request_rejected
             Fixtures.flat_km Fixtures.flat_metres Fixtures.rider "10.0.0.1"
             Fixtures.equator_request Fixtures.wednesday_noon 11%nat
             Fixtures.with_requested_trip).
    left. exists 0. split; reflexivity.
Defined.



(** *** Rows and statements *)

Lemma find_after_update :
  forall (p : trip -> bool) (g : trip -> trip) (id : uuid) (l : list trip),
    (forall t, trip_id (g t) = trip_id t) ->
    find (fun t => uuid_eqb (trip_id t) id)
         (map (fun t => if p t then g t else t) l)
    = option_map (fun t => if p t then g t else t)
                 (find (fun t => uuid_eqb (trip_id t) id) l).
Proof.
  intros p g id l Hg. induction l as [| x l IH]; simpl; [reflexivity |].
  assert (E : trip_id (if p x then g x else x) = trip_id x)
    by (destruct (p x); [apply Hg | reflexivity]).
  rewrite E. destruct (uuid_eqb (trip_id x) id); [reflexivity | exact IH].
Qed.

Lemma hd_filter_is_find :
  forall (A : Type) (p : A -> bool) (l : list A),
    hd_error (filter p l) = find p l.
Proof.
  intros A p l. induction l as [| x l IH]; simpl; [reflexivity |].
  destruct (p x); [reflexivity | exact IH].
Qed.

Lemma find_some_In :
  forall (id : uuid) (l : list trip) (t : trip),
    find (fun t => uuid_eqb (trip_id t) id) l = Some t ->
    In t l /\ trip_id t = id.
Proof.
  intros id l t H. apply find_some in H. destruct H as [Hin Hid].
  split; [exact Hin | now apply Nat.eqb_eq].
Qed.

(** Under the primary key a row is determined by its id. *)
Lemma primary_key_row :
  forall (l : list trip) (a b : trip),
    NoDup (map trip_id l) -> In a l -> In b l -> trip_id a = trip_id b -> a = b.
Proof.
  induction l as [| x l IH]; intros a b Hnd Ha Hb E; [contradiction |].
  simpl in Hnd. inversion Hnd as [| ? ? Hx Hrest]; subst.
  destruct Ha as [-> | Ha], Hb as [-> | Hb].
  - reflexivity.
  - exfalso. apply Hx. rewrite E. now apply in_map.
  - exfalso. apply Hx. rewrite <- E. now apply in_map.
  - now apply IH.
Qed.

Lemma no_row_still_pending :
  forall id d t,
    trips_primary_key d -> select_trip id d = Some t -> status t <> pending ->
    filter (still_pending id) (trips d) = [].
Proof.
  intros id d t Hpk Hsel Hst.
  apply find_some_In in Hsel. destruct Hsel as [Hin Hid].
  assert (H : forall x, In x (trips d) -> still_pending id x = false).
  { intros x Hx. unfold still_pending.
    destruct (uuid_eqb (trip_id x) id) eqn:E; [| reflexivity].
    apply Nat.eqb_eq in E.
    assert (x = t) by (apply (@primary_key_row (trips d) x t Hpk Hx Hin); congruence).
    subst x. destruct (status t); simpl; try reflexivity. now elim Hst. }
  clear Hpk Hin. revert H. generalize (trips d) as l.
  induction l as [| x l IH]; intros H; simpl; [reflexivity |].
  rewrite (H x (or_introl eq_refl)). apply IH.
  intros y Hy. apply H. now right.
Qed.

(** *** POST /:trip_id/accept on a trip that is no longer pending *)

(** C3, as amended.  For every accept call on a trip whose status is not
    pending, the call fails and leaves the database as it was (status, driver
    reference, timestamps and all) and sends nothing: with the stale-offer
    answer (409, trip already accepted by another driver or cancelled) when
    the calling driver is approved and available, and with 403 (driver not
    approved or not available) when he is not, the driver check coming
    first. *)
Theorem accept_on_non_pending_trip :
  forall (driver_id : uuid) (ip : string) (id : uuid) (now : Z) (d : db)
         (t : trip),
    trips_primary_key d ->
    select_trip id d = Some t ->
    status t <> pending ->
    post_accept driver_id ip id now d
    = (if driver_may_accept driver_id d
       then failure 409 stale_offer_error
       else failure 403 driver_not_eligible_error,
       d, []).
Proof.
  intros driver ip id now d t Hpk Hsel Hst.
  unfold post_accept, accept_statement.
  destruct (driver_may_accept driver d); simpl; [| reflexivity].
  rewrite (@no_row_still_pending id d t Hpk Hsel Hst). reflexivity.
Qed.

Lemma accept_on_non_pending_trip_witness :
  post_accept Fixtures.second_driver "10.0.0.3" Fixtures.the_trip 1100
              Fixtures.with_accepted_trip
  = (failure 409 stale_offer_error, Fixtures.with_accepted_trip, []).
Proof.
  apply (@accept_on_non_pending_trip
           Fixtures.second_driver "10.0.0.3" Fixtures.the_trip 1100
           Fixtures.with_accepted_trip
           (bind_driver Fixtures.first_driver 1000 Fixtures.requested_trip)).
  - unfold trips_primary_key. simpl. constructor; [simpl; tauto | constructor].
  - reflexivity.
  - simpl. discriminate.
Defined.

(** C3 as first stated does not hold: the driver who holds the trip, no longer
    available, calls accept again on it and is answered 403, not the stale
    offer. *)
Lemma unavailable_driver_not_told_stale_offer :
  exists t,
    select_trip Fixtures.the_trip Fixtures.with_accepted_trip = Some t
    /\ status t = accepted
    /\ fst (fst (post_accept Fixtures.first_driver "10.0.0.2" Fixtures.the_trip
                             1100 Fixtures.with_accepted_trip))
       = failure 403 driver_not_eligible_error
    /\ fst (fst (post_accept Fixtures.first_driver "10.0.0.2" Fixtures.the_trip
                             1100 Fixtures.with_accepted_trip))
       <> failure 409 stale_offer_error.
Proof.
  eexists. split; [reflexivity |]. split; [reflexivity |].
  split; [reflexivity | discriminate].
Qed.

(** *** PATCH /:trip_id/status *)

Lemma trips_insert_audit :
  forall a d, trips (insert_audit a d) = trips d.
Proof. reflexivity. Qed.

Lemma trips_update_availability :
  forall who b d, trips (update_availability who b d) = trips d.
Proof. reflexivity. Qed.

Lemma trips_insert_audit_availability :
  forall a (c : bool) who d,
    trips (insert_audit a (if c then update_availability who true d else d))
    = trips d.
Proof. intros a [|] who d; reflexivity. Qed.

(** Which statements the database runs: the one for driver_arriving, whose
    only parameters are the id and the status; the others bind
    CURRENT_TIMESTAMP as a text and are refused. *)
Lemma status_statement_cases :
  forall id s now d,
    status_statement id s now d
    = if status_eqb s in_progress || status_eqb s completed
         || includes_cancelled s
      then None
      else Some
             (map (write_status s [] now)
                  (filter (fun t => uuid_eqb (trip_id t) id) (trips d)),
              with_trips
                (map (fun t => if uuid_eqb (trip_id t) id
                               then write_status s [] now t else t)
                     (trips d))
                d).
Proof. intros id s now d. destruct s; reflexivity. Qed.

(** A statement that runs writes the trips and nothing else. *)
Lemma status_statement_writes :
  forall id s now d rows d1,
    status_statement id s now d = Some (rows, d1) ->
    exists times,
      rows = map (write_status s times now)
                 (filter (fun t => uuid_eqb (trip_id t) id) (trips d))
      /\ d1 = with_trips
                (map (fun t => if uuid_eqb (trip_id t) id
                               then write_status s times now t else t)
                     (trips d))
                d.
Proof.
  intros id s now d rows d1 H. unfold status_statement in H.
  destruct (bound_times now (updateFields s)) as [times |];
    [| discriminate H].
  injection H as <- <-. exists times. split; reflexivity.
Qed.

Lemma participant_is_authorised :
  forall (t : trip) (user_id : uuid),
    client_id t = user_id \/ driver_id t = Some user_id ->
    negb (uuid_eqb (client_id t) user_id)
    && negb (column_is (driver_id t) user_id) = false.
Proof.
  intros t user [<- | ->].
  - unfold uuid_eqb. rewrite Nat.eqb_refl. reflexivity.
  - simpl. unfold uuid_eqb. rewrite Nat.eqb_refl. apply andb_false_r.
Qed.

(** A participant may write driver_arriving, whatever the current status
    is. *)
Lemma patch_status_by_participant :
  forall user_id ip id now d t,
    select_trip id d = Some t ->
    client_id t = user_id \/ driver_id t = Some user_id ->
    exists d' events,
      patch_status user_id ip id driver_arriving now d
      = (json (Some (write_status driver_arriving [] now t)), d', events)
      /\ select_trip id d' = Some (write_status driver_arriving [] now t)
      /\ users d' = users d
      /\ driver_profiles d' = driver_profiles d.
Proof.
  intros user ip id now d t Hsel Hwho.
  unfold patch_status. rewrite Hsel. simpl negb at 1. cbv iota.
  rewrite (participant_is_authorised t Hwho).
  rewrite status_statement_cases. cbv beta iota. simpl orb. cbv iota.
  assert (Hhd : hd_error (map (write_status driver_arriving [] now)
                              (filter (fun t0 => uuid_eqb (trip_id t0) id)
                                      (trips d)))
                = Some (write_status driver_arriving [] now t)).
  { unfold select_trip in Hsel. rewrite <- hd_filter_is_find in Hsel.
    destruct (filter (fun t0 => uuid_eqb (trip_id t0) id) (trips d));
      simpl in *; congruence. }
  rewrite Hhd.
  eexists _, _. split; [reflexivity |]. split; [| split; reflexivity].
  unfold select_trip. rewrite trips_insert_audit. simpl trips.
  rewrite (find_after_update (fun t0 => uuid_eqb (trip_id t0) id)
                             (write_status driver_arriving [] now) id (trips d))
    by reflexivity.
  unfold select_trip in Hsel. rewrite Hsel. simpl.
  apply find_some_In in Hsel. destruct Hsel as [_ <-].
  unfold uuid_eqb. rewrite Nat.eqb_refl. reflexivity.
Qed.

(** The other four statuses cannot be written by anybody: the participant
    who asks for one of them is answered 500 and the database stays as it
    was. *)
Lemma patch_status_refused :
  forall user_id ip id s now d t,
    select_trip id d = Some t ->
    client_id t = user_id \/ driver_id t = Some user_id ->
    s = in_progress \/ s = completed \/ includes_cancelled s = true ->
    patch_status user_id ip id s now d
    = (failure 500 status_failed_error, d, []).
Proof.
  intros user ip id s now d t Hsel Hwho Hs.
  unfold patch_status. rewrite Hsel.
  rewrite (participant_is_authorised t Hwho).
  rewrite status_statement_cases.
  destruct s; destruct Hs as [Hs | [Hs | Hs]]; try discriminate Hs;
    reflexivity.
Qed.

(** C4, on the code.  The current status is selected and never consulted: the
    client of a trip that is still pending, with no driver, sets it to
    driver_arriving and is answered with the updated trip; and the client of
    a cancelled trip sets it back to driver_arriving.  The direct update from
    pending to in_progress does fail, with the 500 of a refused statement and
    not as an invalid transition, and leaves the database as it was. *)
Theorem status_update_skips_adjacency :
  (exists t d' events,
     patch_status Fixtures.rider "10.0.0.1" Fixtures.the_trip driver_arriving
                  1100 Fixtures.with_requested_trip
     = (json (Some t), d', events)
     /\ select_trip Fixtures.the_trip d' = Some t
     /\ status t = driver_arriving /\ driver_id t = None)
  /\ (exists t d' events,
        status Fixtures.cancelled_trip = cancelled_by_client
        /\ select_trip Fixtures.the_trip Fixtures.with_cancelled_trip
           = Some Fixtures.cancelled_trip
        /\ patch_status Fixtures.rider "10.0.0.1" Fixtures.the_trip
                        driver_arriving 1300 Fixtures.with_cancelled_trip
           = (json (Some t), d', events)
        /\ select_trip Fixtures.the_trip d' = Some t
        /\ status t = driver_arriving)
  /\ patch_status Fixtures.rider "10.0.0.1" Fixtures.the_trip in_progress
                  1100 Fixtures.with_requested_trip
     = (failure 500 status_failed_error, Fixtures.with_requested_trip, []).
Proof.
  split; [| split].
  - eexists _, _, _. split; [reflexivity |]. repeat split; reflexivity.
  - eexists _, _, _. split; [reflexivity |]. split; [reflexivity |].
    split; [reflexivity |]. split; reflexivity.
  - reflexivity.
Qed.

(** *** POST /:trip_id/sos *)

Lemma emergency_events_logged :
  forall id a d,
    emergency_events id (insert_audit a d)
    = emergency_events id d ++ (if is_emergency_event id a then [a] else []).
Proof.
  intros id a d. unfold emergency_events, insert_audit. simpl.
  rewrite filter_app. simpl. destruct (is_emergency_event id a); reflexivity.
Qed.

(** The handler consults nothing before it acknowledges. *)
Lemma post_sos_answer :
  forall SUPPORT_PHONE user_id ip id loc now d,
    fst (fst (post_sos SUPPORT_PHONE user_id ip id loc now d))
    = json (mkSosAck sos_sent_message SUPPORT_PHONE).
Proof. reflexivity. Qed.

(** C7.  For every existing trip, whatever its status (completed and the
    cancelled states included), triggering SOS succeeds: the answer is the
    acknowledgement with the support number of the environment, the
    emergency flag of the trip is set while its status and driver are left
    as they were, and exactly one emergency event is recorded for the trip by
    the call.  No status makes the handler fail. *)
Theorem sos_acknowledged_in_any_state :
  forall (SUPPORT_PHONE : option string) (user_id : uuid) (ip : string)
         (id : uuid) (loc : option point) (now : Z) (d : db) (t : trip),
    select_trip id d = Some t ->
    exists d' alert t',
      post_sos SUPPORT_PHONE user_id ip id loc now d
      = (json (mkSosAck sos_sent_message SUPPORT_PHONE), d',
         [io_emit "admin" alert])
      /\ select_trip id d' = Some t'
      /\ sos_triggered t' = true
      /\ sos_triggered_at t' = Some now
      /\ status t' = status t
      /\ driver_id t' = driver_id t
      /\ (forall x, In x (trips d') -> trip_id x = id -> sos_triggered x = true)
      /\ emergency_events id d'
         = emergency_events id d
           ++ [mkAudit user_id (sos_triggered_action loc) id ip]
      /\ List.length (emergency_events id d')
         = S (List.length (emergency_events id d)).
Proof.
  intros SUPPORT_PHONE user ip id loc now d t Hsel.
  unfold post_sos. eexists _, _, (raise_sos now t).
  split; [reflexivity |].
  assert (Hev : is_emergency_event
                  id (mkAudit user (sos_triggered_action loc) id ip) = true)
    by (unfold is_emergency_event, uuid_eqb; simpl; apply Nat.eqb_refl).
  repeat split.
  - unfold select_trip. rewrite trips_insert_audit. simpl trips.
    rewrite (find_after_update (fun t0 => uuid_eqb (trip_id t0) id)
                               (raise_sos now) id (trips d))
      by reflexivity.
    unfold select_trip in Hsel. rewrite Hsel. simpl.
    apply find_some_In in Hsel. destruct Hsel as [_ <-].
    unfold uuid_eqb. rewrite Nat.eqb_refl. reflexivity.
  - intros x Hx Hid. rewrite trips_insert_audit in Hx. simpl trips in Hx.
    apply in_map_iff in Hx. destruct Hx as [y [<- Hy]].
    destruct (uuid_eqb (trip_id y) id) eqn:E; [reflexivity |].
    apply Nat.eqb_neq in E. contradiction.
  - rewrite emergency_events_logged, Hev. reflexivity.
  - rewrite emergency_events_logged, Hev. rewrite length_app.
    apply Nat.add_1_r.
Qed.

Lemma sos_acknowledged_in_any_state_witness :
  exists d' alert t',
    post_sos (Some "+254700000000"%string) Fixtures.rider "10.0.0.1"
             Fixtures.the_trip (Some Fixtures.kilimani) 1200
             Fixtures.with_cancelled_trip
    = (json (mkSosAck sos_sent_message (Some "+254700000000"%string)), d',
       [io_emit "admin" alert])
    /\ select_trip Fixtures.the_trip d' = Some t'
    /\ sos_triggered t' = true
    /\ sos_triggered_at t' = Some 1200%Z
    /\ status t' = status Fixtures.cancelled_trip
    /\ driver_id t' = driver_id Fixtures.cancelled_trip
    /\ (forall x, In x (trips d') -> trip_id x = Fixtures.the_trip ->
                  sos_triggered x = true)
    /\ emergency_events Fixtures.the_trip d'
       = emergency_events Fixtures.the_trip Fixtures.with_cancelled_trip
         ++ [mkAudit Fixtures.rider
                     (sos_triggered_action (Some Fixtures.kilimani))
                     Fixtures.the_trip "10.0.0.1"]
    /\ List.length (emergency_events Fixtures.the_trip d')
       = S (List.length
              (emergency_events Fixtures.the_trip Fixtures.with_cancelled_trip)).
Proof.
  apply (@sos_acknowledged_in_any_state
           (Some "+254700000000"%string) Fixtures.rider "10.0.0.1"
           Fixtures.the_trip (Some Fixtures.kilimani) 1200
           Fixtures.with_cancelled_trip Fixtures.cancelled_trip).
  reflexivity.
Defined.

End TripsFacts.

(** ** The acceptance race *)

Module AcceptRaceFacts.
Import Store Trips AcceptRace TripsFacts.

(** *** The accept statement *)

Lemma first_pending_row :
  forall id l t0,
    find (fun t => uuid_eqb (trip_id t) id) l = Some t0 ->
    status t0 = pending ->
    exists rest, filter (still_pending id) l = t0 :: rest.
Proof.
  intros id l t0. induction l as [| x l IH]; simpl; intros Hf Hp;
    [discriminate |].
  unfold still_pending at 1.
  destruct (uuid_eqb (trip_id x) id) eqn:E.
  - injection Hf as ->. rewrite Hp. simpl. eexists. reflexivity.
  - simpl. now apply IH.
Qed.

Lemma no_pending_row_after_accept :
  forall id winner tn l,
    filter (still_pending id)
           (map (fun t => if still_pending id t
                          then bind_driver winner tn t else t) l)
    = [].
Proof.
  intros id winner tn l. induction l as [| x l IH]; simpl; [reflexivity |].
  destruct (still_pending id x) eqn:E.
  - unfold still_pending at 1. simpl. rewrite andb_false_r. exact IH.
  - rewrite E. exact IH.
Qed.

Lemma accept_statement_matches :
  forall driver id now d t0,
    select_trip id d = Some t0 ->
    status t0 = pending ->
    exists rest,
      fst (accept_statement driver id now d)
      = bind_driver driver now t0 :: rest.
Proof.
  intros driver id now d t0 Hs Hp. unfold accept_statement. simpl.
  destruct (first_pending_row id (trips d) Hs Hp) as [rest ->].
  simpl. eexists. reflexivity.
Qed.

Lemma accept_statement_after_win :
  forall driver id now winner tn d0 d,
    trips d = trips (snd (accept_statement winner id tn d0)) ->
    fst (accept_statement driver id now d) = [].
Proof.
  intros driver id now winner tn d0 d E. unfold accept_statement. simpl.
  rewrite E. simpl. rewrite no_pending_row_after_accept. reflexivity.
Qed.

Lemma select_trip_after_win :
  forall id winner tn d0 t0,
    select_trip id d0 = Some t0 ->
    status t0 = pending ->
    select_trip id (snd (accept_statement winner id tn d0))
    = Some (bind_driver winner tn t0).
Proof.
  intros id winner tn d0 t0 Hs Hp. unfold select_trip, accept_statement.
  simpl.
  rewrite (find_after_update (still_pending id) (bind_driver winner tn) id
                             (trips d0)) by reflexivity.
  unfold select_trip in Hs. rewrite Hs. simpl.
  apply find_some_In in Hs. destruct Hs as [_ Hid].
  unfold still_pending. rewrite Hid, Hp. unfold uuid_eqb.
  rewrite Nat.eqb_refl. reflexivity.
Qed.

(** *** The availability of the drivers *)

Lemma select_driver_elsewhere :
  forall who other b d,
    other <> who ->
    select_driver other (update_availability (Some who) b d)
    = select_driver other d.
Proof.
  intros who other b d Hne. unfold select_driver, update_availability. simpl.
  induction (driver_profiles d) as [| p l IH]; simpl; [reflexivity |].
  unfold uuid_eqb in *.
  destruct (Nat.eqb who (dp_user_id p)) eqn:Ew; simpl.
  - apply Nat.eqb_eq in Ew.
    destruct (Nat.eqb (dp_user_id p) other) eqn:Eo.
    + apply Nat.eqb_eq in Eo. congruence.
    + exact IH.
  - destruct (Nat.eqb (dp_user_id p) other); [reflexivity | exact IH].
Qed.

Lemma select_driver_marked :
  forall who b d p,
    select_driver who d = Some p ->
    select_driver who (update_availability (Some who) b d)
    = Some (set_available b p).
Proof.
  intros who b d p. unfold select_driver, update_availability. simpl.
  induction (driver_profiles d) as [| x l IH]; simpl; [discriminate |].
  unfold uuid_eqb in *. intro H.
  rewrite (Nat.eqb_sym who (dp_user_id x)).
  destruct (Nat.eqb (dp_user_id x) who) eqn:E.
  - injection H as ->. simpl. rewrite E. reflexivity.
  - rewrite E. now apply IH.
Qed.

Lemma driver_may_accept_elsewhere :
  forall who other b d,
    other <> who ->
    driver_may_accept other (update_availability (Some who) b d)
    = driver_may_accept other d.
Proof.
  intros who other b d Hne. unfold driver_may_accept.
  now rewrite select_driver_elsewhere.
Qed.

(** *** Lists of calls *)

Lemma other_callers_differ :
  forall (before after : list call) (c x : call),
    NoDup (map caller (before ++ c :: after)) ->
    In x (before ++ after) -> caller x <> caller c.
Proof.
  intros before after c x Hnd Hin E.
  rewrite map_app in Hnd. simpl in Hnd.
  apply NoDup_remove_2 in Hnd. apply Hnd.
  rewrite <- map_app, <- E. now apply in_map.
Qed.

Lemma callers_kept :
  forall (before after : list call) (c : call) (s : stage),
    map caller (before ++ at_stage c s :: after)
    = map caller (before ++ c :: after).
Proof.
  intros. rewrite !map_app. reflexivity.
Qed.

Lemma advance_is_a_stage :
  forall id now c w c' w',
    advance id now c w = Some (c', w') ->
    exists s, c' = at_stage c s.
Proof.
  intros id now c w c' w' H. unfold advance in H.
  destruct (stage_of c) as [| | row | row | row [u |] | r].
  - destruct (negb (driver_may_accept (caller c) (store w)));
      injection H as <- _; eexists; reflexivity.
  - destruct (accept_statement (caller c) id now (store w)) as [[| row rows] d1];
      injection H as <- _; eexists; reflexivity.
  - injection H as <- _. eexists. reflexivity.
  - injection H as <- _. eexists. reflexivity.
  - injection H as <- _. eexists. reflexivity.
  - injection H as <- _. eexists. reflexivity.
  - discriminate.
Qed.

(** *** Every race comes to an end *)

Lemma advance_consumes :
  forall id now c w c' w',
    advance id now c w = Some (c', w') -> (remaining c' < remaining c)%nat.
Proof.
  intros id now c w c' w' H. unfold advance in H.
  assert (R : remaining c = match stage_of c with
                            | at_driver_check => 5
                            | at_accept_statement => 4
                            | at_mark_unavailable _ => 3
                            | at_client_details _ => 2
                            | at_commit _ _ => 1
                            | responded _ => 0
                            end%nat) by reflexivity.
  rewrite R. clear R.
  destruct (stage_of c) as [| | row | row | row [u |] | r].
  - destruct (negb (driver_may_accept (caller c) (store w)));
      injection H as <- _; unfold remaining, at_stage; simpl; lia.
  - destruct (accept_statement (caller c) id now (store w)) as [[| row rows] d1];
      injection H as <- _; unfold remaining, at_stage; simpl; lia.
  - injection H as <- _. unfold remaining, at_stage. simpl. lia.
  - injection H as <- _. unfold remaining, at_stage. simpl. lia.
  - injection H as <- _. unfold remaining, at_stage. simpl. lia.
  - injection H as <- _. unfold remaining, at_stage. simpl. lia.
  - discriminate.
Qed.

Lemma advance_unless_responded :
  forall id now c w,
    advance id now c w = None -> has_responded c = true.
Proof.
  intros id now c w H. unfold advance in H. unfold has_responded.
  destruct (stage_of c) as [| | row | row | row [u |] | r];
    try reflexivity; try discriminate.
  - destruct (negb (driver_may_accept (caller c) (store w))); discriminate.
  - destruct (accept_statement (caller c) id now (store w)) as [[| row rows] d1];
      discriminate.
Qed.

Lemma run_first_is_a_step :
  forall id now cs w cs' w',
    run_first id now cs w = Some (cs', w') ->
    race_step id (w, cs) (w', cs')
    /\ (total_remaining cs' < total_remaining cs)%nat.
Proof.
  intros id now cs. induction cs as [| c rest IH]; simpl; intros w cs' w' H;
    [discriminate |].
  destruct (advance id now c w) as [[c1 w1] |] eqn:E.
  - injection H as <- <-. split.
    + apply (race_advance id now [] c rest w E).
    + apply advance_consumes in E. unfold total_remaining. simpl. lia.
  - destruct (run_first id now rest w) as [[rest1 w1] |] eqn:R; [| discriminate].
    injection H as <- <-. destruct (IH _ _ _ R) as [Hstep Hlt]. split.
    + inversion Hstep as [now' before c0 after w0 c0' w0' Hadv]; subst.
      apply (race_advance id now' (c :: before) c0 after w Hadv).
    + unfold total_remaining in *. simpl. lia.
Qed.

Lemma run_first_stops :
  forall id now cs w,
    run_first id now cs w = None -> forallb has_responded cs = true.
Proof.
  intros id now cs w. induction cs as [| c rest IH]; simpl; intro H;
    [reflexivity |].
  destruct (advance id now c w) as [[c1 w1] |] eqn:E; [discriminate |].
  destruct (run_first id now rest w) as [[rest1 w1] |] eqn:R; [discriminate |].
  rewrite (advance_unless_responded _ _ _ _ E). simpl. now apply IH.
Qed.

Lemma run_all_completes :
  forall id now fuel cs w,
    (total_remaining cs <= fuel)%nat ->
    race_run id (w, cs) (snd (run_all fuel id now cs w),
                         fst (run_all fuel id now cs w))
    /\ forallb has_responded (fst (run_all fuel id now cs w)) = true.
Proof.
  intros id now fuel. induction fuel as [| k IH]; intros cs w Hf; simpl.
  - destruct (run_first id now cs w) as [[cs1 w1] |] eqn:R.
    + apply run_first_is_a_step in R. lia.
    + split; [constructor | now apply run_first_stops in R].
  - destruct (run_first id now cs w) as [[cs1 w1] |] eqn:R.
    + pose proof (run_first_is_a_step _ _ _ _ R) as [Hstep Hlt].
      destruct (IH cs1 w1) as [Hrun Hdone]; [lia |].
      split; [| exact Hdone]. eapply race_more; eassumption.
    + split; [constructor | now apply run_first_stops in R].
Qed.

(** *** The stages are the handler *)

(** A call that runs alone goes through [post_accept]. *)
Lemma lone_call_is_post_accept :
  forall driver ip id now d events0,
    run_all 5 id now [mkCall driver ip at_driver_check] (mkWorld d events0)
    = ([mkCall driver ip (responded (fst (fst (post_accept driver ip id now d))))],
       mkWorld (snd (fst (post_accept driver ip id now d)))
               (events0 ++ snd (post_accept driver ip id now d))).
Proof.
  intros driver ip id now d events0. unfold post_accept.
  unfold run_all, run_first, advance at 1. cbn [stage_of caller store].
  destruct (driver_may_accept driver d); cbn [negb].
  - unfold advance at 1. cbn [stage_of caller store at_stage].
    destruct (accept_statement driver id now d) as [[| row rows] d1].
    + cbn. rewrite app_nil_r. reflexivity.
    + unfold advance. cbn [stage_of caller store at_stage caller_ip emitted].
      destruct (select_user (client_id row)
                            (update_availability (Some driver) false d1));
        reflexivity.
  - cbn. rewrite app_nil_r. reflexivity.
Qed.

(** *** The invariant of the race *)

Section Race.

Variable id : uuid.
Variable d0 : db.
Variable t0 : trip.
Variable u0 : user.
Variable drivers : list uuid.

Hypothesis distinct_drivers : NoDup drivers.
Hypothesis eligible :
  forall dr, In dr drivers -> driver_may_accept dr d0 = true.
Hypothesis trip_found : select_trip id d0 = Some t0.
Hypothesis trip_pending : status t0 = pending.
Hypothesis client_found : select_user (client_id t0) d0 = Some u0.

Lemma store_after_win :
  forall winner tn w c,
    winning id d0 t0 u0 winner tn w c ->
    trips (store w) = trips (snd (accept_statement winner id tn d0))
    /\ forall dr, dr <> winner ->
                  driver_may_accept dr (store w) = driver_may_accept dr d0.
Proof.
  intros winner tn w c H.
  assert (Hd2 : forall dr, dr <> winner ->
            driver_may_accept dr
              (update_availability (Some winner) false
                 (snd (accept_statement winner id tn d0)))
            = driver_may_accept dr d0)
    by (intros dr Hne; now rewrite driver_may_accept_elsewhere).
  destruct H as [[_ E] | [[_ E] | [[_ E] | [_ E]]]]; rewrite E;
    (split; [reflexivity |]); intros dr Hne;
    first [reflexivity | exact (Hd2 dr Hne)].
Qed.

Lemma others_stay_turned_away :
  forall winner tn w w' (l : list call),
    (forall x, In x l -> caller x <> winner) ->
    Forall (fun c => if uuid_eqb (caller c) winner
                     then winning id d0 t0 u0 winner tn w c
                     else turned_away c) l ->
    Forall (fun c => if uuid_eqb (caller c) winner
                     then winning id d0 t0 u0 winner tn w' c
                     else turned_away c) l.
Proof.
  intros winner tn w w' l Hne H. rewrite Forall_forall in *. intros x Hx.
  specialize (H x Hx). specialize (Hne x Hx).
  destruct (uuid_eqb (caller x) winner) eqn:E; [| exact H].
  apply Nat.eqb_eq in E. contradiction.
Qed.

Lemma waiting_others_turned_away :
  forall winner tn w (l : list call),
    (forall x, In x l -> caller x <> winner) ->
    Forall waiting l ->
    Forall (fun c => if uuid_eqb (caller c) winner
                     then winning id d0 t0 u0 winner tn w c
                     else turned_away c) l.
Proof.
  intros winner tn w l Hne H. rewrite Forall_forall in *. intros x Hx.
  specialize (H x Hx). specialize (Hne x Hx).
  destruct (uuid_eqb (caller x) winner) eqn:E; [| left; exact H].
  apply Nat.eqb_eq in E. contradiction.
Qed.

Lemma winner_call :
  forall winner tn w (cs : list call),
    In winner (map caller cs) ->
    Forall (fun c => if uuid_eqb (caller c) winner
                     then winning id d0 t0 u0 winner tn w c
                     else turned_away c) cs ->
    exists cw, In cw cs /\ caller cw = winner
               /\ winning id d0 t0 u0 winner tn w cw.
Proof.
  intros winner tn w cs Hin H. apply in_map_iff in Hin.
  destruct Hin as [cw [E Hcw]]. rewrite Forall_forall in H.
  specialize (H cw Hcw). unfold uuid_eqb in H. rewrite E, Nat.eqb_refl in H.
  exists cw. auto.
Qed.

Lemma invariant_step :
  forall x y,
    race_invariant id d0 t0 u0 drivers x ->
    race_step id x y ->
    race_invariant id d0 t0 u0 drivers y.
Proof.
  intros x y Hinv Hstep.
  inversion Hstep as [now before c after w c' w' Hadv]; subst.
  inversion Hinv as [w0 cs0 Hstore Hcallers Hwait Ew0
                    | winner tn w0 cs0 Hin Hcallers Hall Ew0];
    subst w0 cs0.
  - (* no accept statement has matched yet *)
    assert (Hnd : NoDup (map caller (before ++ c :: after)))
      by (rewrite Hcallers; exact distinct_drivers).
    assert (Hc_in : In (caller c) drivers)
      by (rewrite <- Hcallers; apply in_map, in_elt).
    pose proof (fun x => @other_callers_differ before after c x Hnd) as Hdiff.
    apply Forall_app in Hwait. destruct Hwait as [Hb Hca].
    apply Forall_cons_iff in Hca. destruct Hca as [Hc Ha].
    unfold advance in Hadv. destruct Hc as [Hc | Hc]; rewrite Hc in Hadv.
    + rewrite Hstore, (eligible _ Hc_in) in Hadv. simpl in Hadv.
      injection Hadv as <- <-.
      apply race_undecided;
        [exact Hstore | rewrite callers_kept; exact Hcallers |].
      apply Forall_app. split; [exact Hb |].
      constructor; [right; reflexivity | exact Ha].
    + rewrite Hstore in Hadv.
      destruct (accept_statement_matches (caller c) id now d0
                                         trip_found trip_pending)
        as [rest Hrows].
      destruct (accept_statement (caller c) id now d0) as [rows d1] eqn:Eacc.
      simpl in Hrows. subst rows. injection Hadv as <- <-.
      apply race_won with (winner := caller c) (tn := now);
        [exact Hc_in | rewrite callers_kept; exact Hcallers |].
      apply Forall_app. split.
      * apply waiting_others_turned_away; [| exact Hb].
        intros x Hx. apply Hdiff. apply in_or_app. now left.
      * constructor.
        -- cbv beta.
           replace (uuid_eqb (caller (at_stage c (at_mark_unavailable
                                                    (bind_driver (caller c) now t0))))
                             (caller c))
             with true by (symmetry; apply Nat.eqb_refl).
           left. split; [reflexivity |]. cbn [store]. now rewrite Eacc.
        -- apply waiting_others_turned_away; [| exact Ha].
           intros x Hx. apply Hdiff. apply in_or_app. now right.
  - (* one call has won *)
    assert (Hnd : NoDup (map caller (before ++ c :: after)))
      by (rewrite Hcallers; exact distinct_drivers).
    pose proof (fun x => @other_callers_differ before after c x Hnd) as Hdiff.
    rewrite <- Hcallers in Hin.
    destruct (@winner_call winner tn w (before ++ c :: after) Hin Hall)
      as [cw [_ [_ Hcw]]].
    destruct (@store_after_win winner tn w cw Hcw) as [Htrips Hmay].
    apply Forall_app in Hall. destruct Hall as [Hb Hca].
    apply Forall_cons_iff in Hca. destruct Hca as [Hc Ha].
    destruct (uuid_eqb (caller c) winner) eqn:Ecw.
    + (* the winner runs its next statement *)
      apply Nat.eqb_eq in Ecw.
      assert (Hbefore : forall x, In x before -> caller x <> winner)
        by (intros x Hx; rewrite <- Ecw; apply Hdiff, in_or_app; now left).
      assert (Hafter : forall x, In x after -> caller x <> winner)
        by (intros x Hx; rewrite <- Ecw; apply Hdiff, in_or_app; now right).
      assert (Hrebuild :
        forall s w1,
          winning id d0 t0 u0 winner tn w1 (at_stage c s) ->
          race_invariant id d0 t0 u0 (map caller (before ++ c :: after))
                         (w1, before ++ at_stage c s :: after)).
      { intros s w1 Hw.
        apply race_won with (winner := winner) (tn := tn);
          [exact Hin | apply callers_kept |].
        apply Forall_app. split.
        - now apply others_stay_turned_away with (w := w).
        - constructor.
          + simpl. unfold uuid_eqb. rewrite Ecw, Nat.eqb_refl. exact Hw.
          + now apply others_stay_turned_away with (w := w). }
      rewrite Hcallers in Hrebuild.
      unfold advance in Hadv.
      destruct Hc as [[Hs Hst] | [[Hs Hst] | [[Hs Hst] | [Hs Hst]]]];
        rewrite Hs in Hadv.
      * injection Hadv as <- <-. apply Hrebuild.
        right. left. split; [reflexivity |]. simpl. now rewrite Hst, Ecw.
      * injection Hadv as <- <-.
        assert (Eu : select_user (client_id t0) (store w) = Some u0)
          by (rewrite Hst; exact client_found).
        rewrite Eu. apply Hrebuild.
        right. right. left. split; [reflexivity | exact Hst].
      * injection Hadv as <- <-. apply Hrebuild.
        right. right. right. split; [reflexivity |]. simpl.
        now rewrite Hst, Ecw.
      * discriminate.
    + (* another call runs its next statement *)
      apply Nat.eqb_neq in Ecw.
      assert (Hrebuild :
        forall s,
          turned_away (at_stage c s) ->
          race_invariant id d0 t0 u0 (map caller (before ++ c :: after))
                         (w, before ++ at_stage c s :: after)).
      { intros s Hs.
        apply race_won with (winner := winner) (tn := tn);
          [exact Hin | apply callers_kept |].
        apply Forall_app. split; [exact Hb |].
        constructor; [| exact Ha].
        simpl. apply Nat.eqb_neq in Ecw. unfold uuid_eqb. rewrite Ecw.
        exact Hs. }
      rewrite Hcallers in Hrebuild.
      assert (Hc_in : In (caller c) drivers)
        by (rewrite <- Hcallers; apply in_map, in_elt).
      unfold advance in Hadv. destruct Hc as [[Hs | Hs] | Hs];
        rewrite Hs in Hadv.
      * rewrite (Hmay _ Ecw), (eligible _ Hc_in) in Hadv. simpl in Hadv.
        injection Hadv as <- <-. apply Hrebuild. left. right. reflexivity.
      * pose proof (accept_statement_after_win (caller c) id now winner tn
                                               d0 (store w) Htrips) as Hnone.
        destruct (accept_statement (caller c) id now (store w)) as [rows d1].
        simpl in Hnone. subst rows. injection Hadv as <- <-.
        apply Hrebuild. right. reflexivity.
      * discriminate.
Qed.

Lemma invariant_run :
  forall x y,
    race_run id x y ->
    race_invariant id d0 t0 u0 drivers x ->
    race_invariant id d0 t0 u0 drivers y.
Proof.
  intros x y Hrun. induction Hrun as [x | x y z Hstep _ IH]; intro Hinv.
  - exact Hinv.
  - apply IH. eapply invariant_step; eassumption.
Qed.

End Race.

(** *** The end of the race *)

Lemma responded_while_winning :
  forall id d0 t0 u0 winner tn w c,
    winning id d0 t0 u0 winner tn w c ->
    has_responded c = true ->
    stage_of c = responded (accepted_answer (bind_driver winner tn t0) u0)
    /\ store w
       = insert_audit
           (mkAudit winner trip_accepted_action
                    (trip_id (bind_driver winner tn t0)) (caller_ip c))
           (update_availability (Some winner) false
              (snd (accept_statement winner id tn d0))).
Proof.
  intros id d0 t0 u0 winner tn w c H R. unfold has_responded in R.
  destruct H as [[E _] | [[E _] | [[E _] | [E S]]]]; rewrite E in R;
    try discriminate.
  split; assumption.
Qed.

Lemma responded_while_turned_away :
  forall c,
    turned_away c -> has_responded c = true ->
    stage_of c = responded (failure 409 stale_offer_error).
Proof.
  intros c H R. unfold has_responded in R.
  destruct H as [[E | E] | E]; [rewrite E in R; discriminate .. | exact E].
Qed.

Lemma nobody_else_succeeds :
  forall (winner : uuid) (cs : list call),
    (forall c, In c cs -> caller c <> winner) ->
    (forall c, In c cs -> caller c <> winner -> succeeded c = false) ->
    filter succeeded cs = [].
Proof.
  intros winner cs Hne Hlost. induction cs as [| c rest IH]; simpl;
    [reflexivity |].
  rewrite (Hlost c (or_introl eq_refl) (Hne c (or_introl eq_refl))).
  apply IH; intros x Hx; [apply Hne | apply Hlost]; now right.
Qed.

Lemma one_success :
  forall (winner : uuid) (cs : list call),
    NoDup (map caller cs) ->
    In winner (map caller cs) ->
    (forall c, In c cs -> caller c = winner -> succeeded c = true) ->
    (forall c, In c cs -> caller c <> winner -> succeeded c = false) ->
    List.length (filter succeeded cs) = 1%nat.
Proof.
  intros winner cs. induction cs as [| c rest IH]; simpl;
    intros Hnd Hin Hwon Hlost; [contradiction |].
  inversion Hnd as [| ? ? Hc Hrest]; subst.
  destruct (Nat.eq_dec (caller c) winner) as [E | E].
  - rewrite (Hwon c (or_introl eq_refl) E). simpl.
    rewrite (@nobody_else_succeeds winner rest); [reflexivity | |].
    + intros x Hx Ex. apply Hc. rewrite E, <- Ex. now apply in_map.
    + intros x Hx. apply Hlost. now right.
  - rewrite (Hlost c (or_introl eq_refl) E).
    destruct Hin as [Hin | Hin]; [contradiction |].
    apply IH; try assumption.
    + intros x Hx. apply Hwon. now right.
    + intros x Hx. apply Hlost. now right.
Qed.

Lemma eligible_driver_has_profile :
  forall who d,
    driver_may_accept who d = true ->
    exists p, select_driver who d = Some p.
Proof.
  intros who d H. unfold driver_may_accept in H.
  destruct (select_driver who d) as [p |]; [eauto | discriminate].
Qed.

(** C1, as amended.  For every non-empty set of concurrent accept calls on
    the same trip whose status is pending, made by distinct drivers who are
    all approved and available (the check that comes before the accept
    statement answers any other caller 403), the calls all come to an answer
    and, however their statements interleave, exactly one call succeeds: its
    driver is bound to the trip, the status becomes accepted, and that
    driver's availability is set to false; every other caller observes the
    stale-offer failure; afterwards the driver of the trip is the winner and
    its status is accepted. *)
Theorem accept_race_single_winner :
  forall (id : uuid) (d0 : db) (t0 : trip) (u0 : user)
         (events0 : list event) (calls : list call),
    calls <> [] ->
    NoDup (map caller calls) ->
    Forall (fun c => stage_of c = at_driver_check) calls ->
    (forall c, In c calls -> driver_may_accept (caller c) d0 = true) ->
    select_trip id d0 = Some t0 ->
    status t0 = pending ->
    select_user (client_id t0) d0 = Some u0 ->
    (exists w cs,
       race_run id (mkWorld d0 events0, calls) (w, cs)
       /\ forallb has_responded cs = true)
    /\ forall w cs,
         race_run id (mkWorld d0 events0, calls) (w, cs) ->
         forallb has_responded cs = true ->
         exists winner tn t' p,
           In winner (map caller calls)
           /\ map caller cs = map caller calls
           /\ (forall c, In c cs -> caller c = winner -> succeeded c = true)
           /\ (forall c, In c cs -> caller c <> winner ->
                         got_stale_offer c = true)
           /\ List.length (filter succeeded cs) = 1%nat
           /\ select_trip id (store w) = Some t'
           /\ status t' = accepted
           /\ driver_id t' = Some winner
           /\ accepted_at t' = Some tn
           /\ select_driver winner (store w) = Some p
           /\ is_available p = false.
Proof.
  intros id d0 t0 u0 events0 calls Hne Hnd Hstart Helig Hsel Hpend Hclient.
  split.
  - destruct (@run_all_completes id 0%Z (total_remaining calls) calls
                                 (mkWorld d0 events0) (le_n _))
      as [Hrun Hdone].
    eexists _, _. split; eassumption.
  - intros w cs Hrun Hdone.
    assert (Helig' : forall dr, In dr (map caller calls) ->
                                driver_may_accept dr d0 = true).
    { intros dr Hdr. apply in_map_iff in Hdr. destruct Hdr as [c [<- Hc]].
      now apply Helig. }
    assert (Hinv0 : race_invariant id d0 t0 u0 (map caller calls)
                                   (mkWorld d0 events0, calls)).
    { apply race_undecided; [reflexivity | reflexivity |].
      eapply Forall_impl; [| exact Hstart]. intros c Hc. now left. }
    pose proof (@invariant_run id d0 t0 u0 (map caller calls) Hnd Helig'
                               Hsel Hpend Hclient _ _ Hrun Hinv0) as Hinv.
    rewrite forallb_forall in Hdone.
    inversion Hinv as [w0 cs0 Hstore Hcallers Hwait Ew0
                      | winner tn w0 cs0 Hin Hcallers Hall Ew0];
      subst w0 cs0.
    + (* nobody has run an accept statement: nobody has responded *)
      exfalso. destruct cs as [| c rest].
      * destruct calls; [now apply Hne | discriminate].
      * apply Forall_cons_iff in Hwait. destruct Hwait as [Hc _].
        specialize (Hdone c (or_introl eq_refl)). unfold has_responded in Hdone.
        destruct Hc as [E | E]; rewrite E in Hdone; discriminate.
    + rewrite <- Hcallers in Hin.
      destruct (@winner_call id d0 t0 u0 winner tn w cs Hin Hall)
        as [cw [Hcw_in [Hcw_caller Hcw]]].
      destruct (@responded_while_winning id d0 t0 u0 winner tn w cw Hcw
                                         (Hdone cw Hcw_in))
        as [_ Hstore].
      rewrite Forall_forall in Hall.
      assert (Hwon : forall c, In c cs -> caller c = winner ->
                               succeeded c = true).
      { intros c Hc E. specialize (Hall c Hc). cbv beta in Hall.
        unfold uuid_eqb in Hall. rewrite E, Nat.eqb_refl in Hall.
        destruct (@responded_while_winning id d0 t0 u0 winner tn w c Hall
                                           (Hdone c Hc)) as [Es _].
        unfold succeeded. rewrite Es. reflexivity. }
      assert (Hstale : forall c, In c cs -> caller c <> winner ->
                                 stage_of c
                                 = responded (failure 409 stale_offer_error)).
      { intros c Hc E. specialize (Hall c Hc). cbv beta in Hall.
        apply Nat.eqb_neq in E. unfold uuid_eqb in Hall. rewrite E in Hall.
        exact (responded_while_turned_away Hall (Hdone c Hc)). }
      destruct (@eligible_driver_has_profile winner d0) as [p Hp].
      { apply Helig'. now rewrite <- Hcallers. }
      exists winner, tn, (bind_driver winner tn t0), (set_available false p).
      rewrite Hcallers in Hin.
      split; [exact Hin |].
      split; [exact Hcallers |].
      split; [exact Hwon |].
      split.
      { intros c Hc E. unfold got_stale_offer. rewrite (Hstale c Hc E).
        reflexivity. }
      split.
      { apply one_success with (winner := winner).
        - rewrite Hcallers. exact Hnd.
        - rewrite Hcallers. exact Hin.
        - exact Hwon.
        - intros c Hc E. unfold succeeded. rewrite (Hstale c Hc E).
          reflexivity. }
      split.
      { rewrite Hstore.
        exact (@select_trip_after_win id winner tn d0 t0 Hsel Hpend). }
      split; [reflexivity |]. split; [reflexivity |]. split; [reflexivity |].
      split; [| reflexivity].
      rewrite Hstore.
      exact (@select_driver_marked winner false
               (snd (accept_statement winner id tn d0)) p Hp).
Qed.

Lemma accept_race_single_winner_witness :
  (exists w cs,
     race_run Fixtures.the_trip
              (mkWorld Fixtures.with_requested_trip [],
               arriving [Fixtures.first_driver; Fixtures.second_driver])
              (w, cs)
     /\ forallb has_responded cs = true)
  /\ forall w cs,
       race_run Fixtures.the_trip
                (mkWorld Fixtures.with_requested_trip [],
                 arriving [Fixtures.first_driver; Fixtures.second_driver])
                (w, cs) ->
       forallb has_responded cs = true ->
       exists winner tn t' p,
         In winner (map caller (arriving [Fixtures.first_driver;
                                          Fixtures.second_driver]))
         /\ map caller cs
            = map caller (arriving [Fixtures.first_driver;
                                    Fixtures.second_driver])
         /\ (forall c, In c cs -> caller c = winner -> succeeded c = true)
         /\ (forall c, In c cs -> caller c <> winner ->
                       got_stale_offer c = true)
         /\ List.length (filter succeeded cs) = 1%nat
         /\ select_trip Fixtures.the_trip (store w) = Some t'
         /\ status t' = accepted
         /\ driver_id t' = Some winner
         /\ accepted_at t' = Some tn
         /\ select_driver winner (store w) = Some p
         /\ is_available p = false.
Proof.
  apply (@accept_race_single_winner
           Fixtures.the_trip Fixtures.with_requested_trip
           Fixtures.requested_trip
           (mkUser Fixtures.rider "Rider" "+254712345678" client active)
           []
           (arriving [Fixtures.first_driver; Fixtures.second_driver])).
  - discriminate.
  - simpl. constructor.
    + simpl. intros [H | []]. discriminate H.
    + constructor; [simpl; tauto | constructor].
  - repeat constructor.
  - intros c [<- | [<- | []]]; reflexivity.
  - reflexivity.
  - reflexivity.
  - reflexivity.
Defined.

(** C1 as first stated does not hold.  A lone accept call on the pending trip
    by a driver who is not approved is answered 403: no call succeeds and the
    trip stays pending.  And when that driver races the first driver, the
    first driver wins and the other call is answered 403, not the stale
    offer. *)
Lemma unapproved_caller_neither_wins_nor_is_stale :
  (exists w cs,
     race_run Fixtures.the_trip
              (mkWorld Fixtures.with_requested_trip [],
               arriving [Fixtures.unapproved_driver])
              (w, cs)
     /\ forallb has_responded cs = true
     /\ filter succeeded cs = []
     /\ select_trip Fixtures.the_trip (store w) = Some Fixtures.requested_trip
     /\ status Fixtures.requested_trip = pending)
  /\ (exists w cs,
        race_run Fixtures.the_trip
                 (mkWorld Fixtures.with_requested_trip [],
                  arriving [Fixtures.first_driver; Fixtures.unapproved_driver])
                 (w, cs)
        /\ forallb has_responded cs = true
        /\ map succeeded cs = [true; false]
        /\ map got_stale_offer cs = [false; false]
        /\ map stage_of (filter (fun c => negb (succeeded c)) cs)
           = [responded (failure 403 driver_not_eligible_error)]).
Proof.
  split.
  - destruct (@run_all_completes
                Fixtures.the_trip 1000%Z 5
                (arriving [Fixtures.unapproved_driver])
                (mkWorld Fixtures.with_requested_trip []))
      as [Hrun Hdone]; [vm_compute; lia |].
    eexists _, _. split; [exact Hrun |]. split; [exact Hdone |].
    repeat split; reflexivity.
  - destruct (@run_all_completes
                Fixtures.the_trip 1000%Z 10
                (arriving [Fixtures.first_driver; Fixtures.unapproved_driver])
                (mkWorld Fixtures.with_requested_trip []))
      as [Hrun Hdone]; [vm_compute; lia |].
    eexists _, _. split; [exact Hrun |]. split; [exact Hdone |].
    repeat split; reflexivity.
Qed.

End AcceptRaceFacts.

(** ** The driver reference over the life of a trip *)

Module SystemFacts.
Import JS Store Location Trips System TripsFacts.

Lemma unbound_or_bound_map :
  forall (f : trip -> trip) (l : list trip),
    Forall unbound_while_pending l ->
    (forall t, unbound_while_pending t -> unbound_while_pending (f t)) ->
    Forall unbound_while_pending (map f l).
Proof.
  intros f l Hl Hf. induction Hl; simpl; constructor; auto.
Qed.

Lemma bind_driver_keeps_invariant :
  forall id driver now t,
    unbound_while_pending t ->
    unbound_while_pending
      (if still_pending id t then bind_driver driver now t else t).
Proof.
  intros id driver now t H. destruct (still_pending id t); [| exact H].
  split; simpl; intro E; discriminate.
Qed.

Lemma write_status_keeps_invariant :
  forall id s times now t,
    existsb (status_eqb s) validStatuses = true ->
    unbound_while_pending t ->
    unbound_while_pending
      (if uuid_eqb (trip_id t) id then write_status s times now t else t).
Proof.
  intros id s times now t Hs H. destruct (uuid_eqb (trip_id t) id); [| exact H].
  split; simpl; intro E; subst s; discriminate.
Qed.

Lemma raise_sos_keeps_invariant :
  forall id now t,
    unbound_while_pending t ->
    unbound_while_pending
      (if uuid_eqb (trip_id t) id then raise_sos now t else t).
Proof.
  intros id now t H. destruct (uuid_eqb (trip_id t) id); exact H.
Qed.

Section Invariant.

Variable calculateDistance : Q -> Q -> Q -> Q -> Q.
Variable ST_Distance : point -> point -> Q.
Variable SUPPORT_PHONE : option string.

(** Every handler keeps the invariant of the rows. *)
Lemma perform_keeps_invariant :
  forall a d,
    Forall unbound_while_pending (trips d) ->
    Forall unbound_while_pending (trips (perform calculateDistance ST_Distance SUPPORT_PHONE a d)).
Proof.
  intros a d H.
  destruct a as [client ip body now new_id | driver ip id now
                 | user ip id s now | user ip id loc now]; simpl.
  - (* POST /request *)
    unfold post_request.
    destruct (locations_rejected body); [exact H |].
    destruct (active_pricing_config d); [| exact H].
    destruct (address_of (rb_pickup_location body)); [| exact H].
    destruct (address_of (rb_dropoff_location body)); [| exact H].
    simpl. apply Forall_app. split; [exact H |].
    constructor; [| constructor].
    split; simpl; [reflexivity | discriminate].
  - (* POST /:trip_id/accept *)
    unfold post_accept, accept_statement.
    destruct (driver_may_accept driver d); simpl; [| exact H].
    destruct (filter (still_pending id) (trips d)); simpl; [exact H |].
    assert (G : Forall unbound_while_pending
                  (map (fun t0 => if still_pending id t0
                                  then bind_driver driver now t0 else t0)
                       (trips d))).
    { apply unbound_or_bound_map; [exact H |].
      intros x Hx. now apply bind_driver_keeps_invariant. }
    destruct (select_user _ _); exact G.
  - (* PATCH /:trip_id/status *)
    unfold patch_status.
    destruct (existsb (status_eqb s) validStatuses) eqn:Hs; simpl;
      [| exact H].
    destruct (select_trip id d) as [t |]; [| exact H].
    destruct (negb (uuid_eqb (client_id t) user)
              && negb (column_is (driver_id t) user)); [exact H |].
    destruct (status_statement id s now d) as [[rows d1] |] eqn:E;
      [| exact H].
    apply status_statement_writes in E. destruct E as [times [_ ->]].
    cbn [fst snd]. rewrite trips_insert_audit_availability.
    apply unbound_or_bound_map; [exact H |].
    intros x Hx. now apply write_status_keeps_invariant.
  - (* POST /:trip_id/sos *)
    unfold post_sos. simpl.
    apply unbound_or_bound_map; [exact H |].
    intros x Hx. now apply raise_sos_keeps_invariant.
Qed.

Lemma reachable_invariant :
  forall d, reachable calculateDistance ST_Distance SUPPORT_PHONE d -> Forall unbound_while_pending (trips d).
Proof.
  intros d H. induction H as [d E | d a _ IH | d d' _ IH E].
  - rewrite E. constructor.
  - now apply perform_keeps_invariant.
  - rewrite E. exact IH.
Qed.

Lemma reachable_after :
  forall (l : list action) (d : db),
    reachable calculateDistance ST_Distance SUPPORT_PHONE d ->
    reachable calculateDistance ST_Distance SUPPORT_PHONE
              (fold_left
                 (fun x a => perform calculateDistance ST_Distance
                                     SUPPORT_PHONE a x)
                 l d).
Proof.
  induction l as [| a l IH]; intros d H; simpl; [exact H |].
  apply IH. now constructor.
Qed.

End Invariant.

(** A status update writes no driver reference. *)
Lemma patch_status_keeps_driver :
  forall user_id ip id s now d t,
    In t (trips d) ->
    exists t',
      In t' (trips (snd (fst (patch_status user_id ip id s now d))))
      /\ trip_id t' = trip_id t
      /\ driver_id t' = driver_id t.
Proof.
  intros user ip id s now d t Hin.
  assert (Hsame : exists t', In t' (trips d) /\ trip_id t' = trip_id t
                             /\ driver_id t' = driver_id t)
    by (exists t; auto).
  unfold patch_status.
  destruct (existsb (status_eqb s) validStatuses); simpl; [| exact Hsame].
  destruct (select_trip id d) as [t0 |]; [| exact Hsame].
  destruct (negb (uuid_eqb (client_id t0) user)
            && negb (column_is (driver_id t0) user)); [exact Hsame |].
  destruct (status_statement id s now d) as [[rows d1] |] eqn:E;
    [| exact Hsame].
  apply status_statement_writes in E. destruct E as [times [_ ->]].
  cbn [fst snd]. rewrite trips_insert_audit_availability.
  exists (if uuid_eqb (trip_id t) id then write_status s times now t else t).
  split; [| destruct (uuid_eqb (trip_id t) id); split; reflexivity].
  apply in_map_iff. exists t. split; [reflexivity | exact Hin].
Qed.

(** The driver reference at the two ends of an acceptance: in every reachable
    state of the system, a trip whose status is pending has a null driver
    reference and a trip whose status is accepted has a non-null one; and no
    call of the status handler writes the driver reference of any trip. *)
Theorem driver_reference_by_status :
  forall (calculateDistance : Q -> Q -> Q -> Q -> Q)
         (ST_Distance : point -> point -> Q)
         (SUPPORT_PHONE : option string) (d : db) (t : trip),
    reachable calculateDistance ST_Distance SUPPORT_PHONE d ->
    In t (trips d) ->
    (status t = pending -> driver_id t = None)
    /\ (status t = accepted -> driver_id t <> None)
    /\ (forall user_id ip id s now,
          exists t',
            In t' (trips (snd (fst (patch_status user_id ip id s now d))))
            /\ trip_id t' = trip_id t
            /\ driver_id t' = driver_id t).
Proof.
  intros cd sd sp d t Hr Hin.
  pose proof (reachable_invariant Hr) as Hinv.
  rewrite Forall_forall in Hinv. destruct (Hinv t Hin) as [Hp Ha].
  split; [exact Hp | split; [exact Ha |]].
  intros user ip id s now. now apply patch_status_keeps_driver.
Qed.

Lemma driver_reference_by_status_witness :
  (status Fixtures.storied_trip = pending ->
   driver_id Fixtures.storied_trip = None)
  /\ (status Fixtures.storied_trip = accepted ->
      driver_id Fixtures.storied_trip <> None)
  /\ (forall user_id ip id s now,
        exists t',
          In t' (trips (snd (fst (patch_status user_id ip id s now
                                               Fixtures.after_cancellation))))
          /\ trip_id t' = trip_id Fixtures.storied_trip
          /\ driver_id t' = driver_id Fixtures.storied_trip).
Proof.
  apply (@driver_reference_by_status
           Fixtures.flat_km Fixtures.flat_metres None
           Fixtures.after_cancellation Fixtures.storied_trip).
  - apply (@reachable_after Fixtures.flat_km Fixtures.flat_metres None
                            Fixtures.the_story Fixtures.no_trips_yet).
    apply reach_start. reflexivity.
  - vm_compute. left. reflexivity.
Defined.

(** C2, on the code.  The rider requests a trip and, before any driver has
    accepted it, sets it to driver_arriving: the status handler writes the
    status without looking at the current one, and the system is in a state
    where a trip is in driver_arriving, one of the statuses in which a driver
    is expected, with a null driver reference. *)
Theorem driver_arriving_without_driver :
  reachable Fixtures.flat_km Fixtures.flat_metres None
            Fixtures.after_early_arrival
  /\ In Fixtures.early_arrival_trip (trips Fixtures.after_early_arrival)
  /\ status Fixtures.early_arrival_trip = driver_arriving
  /\ driver_expected (status Fixtures.early_arrival_trip) = true
  /\ driver_id Fixtures.early_arrival_trip = None
  /\ ~ (driver_id Fixtures.early_arrival_trip <> None
        <-> driver_expected (status Fixtures.early_arrival_trip) = true).
Proof.
  split; [| split; [| split; [| split; [| split]]]].
  - apply (@reachable_after Fixtures.flat_km Fixtures.flat_metres None
                            Fixtures.the_early_arrival Fixtures.no_trips_yet).
    apply reach_start. reflexivity.
  - vm_compute. left. reflexivity.
  - reflexivity.
  - reflexivity.
  - reflexivity.
  - intros [_ H]. apply H; reflexivity.
Qed.

End SystemFacts.

(** * Further properties of the code *)

(** ** pricing.js and the arithmetic of location.js *)

Module PricingMore.
Import JS Pricing PricingFacts Location.

Local Open Scope Q_scope.

Lemma Math_max_monotone :
  forall x y m : Q, x <= y -> Math_max x m <= Math_max y m.
Proof.
  intros x y m H.
  destruct (Math_max_spec y m) as [Hy [Hm _]].
  destruct (Math_max_spec x m) as [_ [_ [E | E]]]; rewrite E.
  - eapply Qle_trans; eassumption.
  - exact Hm.
Qed.

Lemma unclamped_price_monotone :
  forall d1 d2 t c,
    0 <= price_per_km c -> 0 <= night_multiplier c ->
    0 <= weekend_multiplier c -> d1 <= d2 ->
    unclamped_price d1 t c <= unclamped_price d2 t c.
Proof.
  intros d1 d2 t c Hk Hn Hw H. unfold unclamped_price.
  assert (H0 : base_price c + d1 * price_per_km c
               <= base_price c + d2 * price_per_km c).
  { apply Qplus_le_r. now apply Qmult_le_compat_r. }
  destruct ((getHours t >=? 22) || (getHours t <? 6))%Z,
           ((getDay t =? 0) || (getDay t =? 6))%Z;
    repeat apply Qmult_le_compat_r; assumption.
Qed.

(** A longer trip never costs less: with a per-kilometre rate and multipliers
    that are not negative, [calculatePrice] does not decrease with the
    distance. *)
Theorem calculatePrice_monotone :
  forall (d1 d2 : Q) (t : Date) (c : pricing_config),
    0 <= price_per_km c ->
    0 <= night_multiplier c ->
    0 <= weekend_multiplier c ->
    d1 <= d2 ->
    calculatePrice d1 t c <= calculatePrice d2 t c.
Proof.
  intros d1 d2 t c Hk Hn Hw H. rewrite !unclamped_price_unfold.
  apply Qmult_le_compat_r; [| discriminate].
  apply Math_round_monotone.
  apply Qmult_le_compat_r; [| discriminate].
  apply Math_max_monotone. now apply unclamped_price_monotone.
Qed.

Lemma calculatePrice_monotone_witness :
  calculatePrice 5 saturday_14h defaultConfig
  <= calculatePrice 10 saturday_14h defaultConfig.
Proof.
  apply (@calculatePrice_monotone 5 10 saturday_14h defaultConfig);
    discriminate.
Defined.

(** The driver's time of arrival is never shown below 3 minutes and never
    decreases with the distance. *)
Theorem calculateETA_floor_and_order :
  forall d1 d2 : Q,
    d1 <= d2 ->
    3 <= calculateETA d1 /\ calculateETA d1 <= calculateETA d2.
Proof.
  intros d1 d2 H. unfold calculateETA. split.
  - apply Math_max_spec.
  - apply Math_max_monotone. apply Math_round_monotone.
    apply Qmult_le_compat_r; [| discriminate].
    apply Qmult_le_compat_r; [exact H | discriminate].
Qed.

Lemma calculateETA_floor_and_order_witness :
  3 <= calculateETA 1 /\ calculateETA 1 <= calculateETA 4.
Proof.
  apply (@calculateETA_floor_and_order 1 4). discriminate.
Defined.

(** Every driver nearer than 1.75 km is shown the same 3 minutes: below that
    distance the rounded time at 30 km/h is at most 3 and the minimum takes
    over. *)
Theorem calculateETA_minimum_below_1750m :
  forall d : Q, d < 7 # 4 -> calculateETA d == 3.
Proof.
  intros d H. unfold calculateETA, Math_max.
  assert (Hle : Math_round (d / 30 * 60) <= 3).
  { unfold Math_round.
    assert (Hz : (Qfloor (d / 30 * 60 + (1 # 2)) < 4)%Z).
    { rewrite Zlt_Qlt. eapply Qle_lt_trans; [apply Qfloor_le |].
      assert (E : d / 30 * 60 + (1 # 2) == d * 2 + (1 # 2)) by field.
      rewrite E.
      apply Qlt_le_trans with ((7 # 4) * 2 + (1 # 2)); [| discriminate].
      apply Qplus_lt_l. apply Qmult_lt_r; [reflexivity | exact H]. }
    change (3 : Q) with (inject_Z 3). rewrite <- Zle_Qle. lia. }
  apply Qle_bool_iff in Hle. rewrite Hle. reflexivity.
Qed.

Lemma calculateETA_minimum_below_1750m_witness : calculateETA (17 # 10) == 3.
Proof.
  apply (@calculateETA_minimum_below_1750m (17 # 10)). reflexivity.
Defined.

(** The service area lies inside the range of valid coordinates: a point
    [isWithinServiceArea] admits is one [validateCoordinates] admits. *)
Theorem service_area_has_valid_coordinates :
  forall lat lon : Q,
    isWithinServiceArea lat lon = true -> validateCoordinates lat lon = true.
Proof.
  intros lat lon H. unfold isWithinServiceArea in H.
  repeat (apply andb_true_iff in H; destruct H as [H ?]).
  repeat match goal with
         | h : Qle_bool _ _ = true |- _ => apply Qle_bool_iff in h
         end.
  unfold validateCoordinates.
  repeat (apply andb_true_iff; split); apply Qle_bool_iff.
  - eapply Qle_trans; [| eassumption]. discriminate.
  - eapply Qle_trans; [eassumption |]. discriminate.
  - eapply Qle_trans; [| eassumption]. discriminate.
  - eapply Qle_trans; [eassumption |]. discriminate.
Qed.

Lemma service_area_has_valid_coordinates_witness :
  validateCoordinates (- (1286389 # 1000000)) (36817223 # 1000000) = true.
Proof.
  apply (@service_area_has_valid_coordinates
           (- (1286389 # 1000000)) (36817223 # 1000000)).
  reflexivity.
Defined.

End PricingMore.

(** ** location.js: the candidates and the location of a driver *)

Module LocationMore.
Import JS Store Location LocationFacts Trips Presence.

Local Open Scope Q_scope.

Lemma sorted_prefix_before_suffix :
  forall (A : Type) (R : A -> A -> Prop) (l1 l2 : list A) (a b : A),
    StronglySorted R (l1 ++ l2) -> In a l1 -> In b l2 -> R a b.
Proof.
  intros A R l1. induction l1 as [| x l1 IH]; intros l2 a b Hs Ha Hb;
    [contradiction |].
  simpl in Hs. inversion Hs as [| ? ? Hrest Hall]; subst.
  destruct Ha as [-> | Ha].
  - rewrite Forall_forall in Hall. apply Hall. apply in_or_app. now right.
  - eapply IH; eassumption.
Qed.

Section Candidates.

Variable ST_Distance : point -> point -> Q.

Lemma nearby_select_complete :
  forall origin metres now d dp u loc t,
    In dp (driver_profiles d) ->
    In u (users d) ->
    dp_user_id dp = user_id u ->
    is_available dp = true ->
    approval_status dp = approved ->
    account_status u = active ->
    current_location dp = Some loc ->
    ST_Distance loc origin <= metres ->
    last_location_update dp = Some t ->
    (now - 600 < t)%Z ->
    In (mkNearby (dp_user_id dp) (full_name u) (phone_number u)
                 (rating_average dp) (total_trips dp) (profile_photo_url dp)
                 (ST_Distance loc origin / 1000) (latitude loc) (longitude loc))
       (nearby_select ST_Distance origin metres now d).
Proof.
  intros origin metres now d dp u loc t Hdp Hu Hid Ha Hp Hs Hloc Hin Ht Hf.
  unfold nearby_select. apply in_flat_map. exists dp. split; [exact Hdp |].
  apply in_flat_map. exists u. split; [exact Hu |].
  assert (Hw : nearby_where ST_Distance origin metres now dp u = true).
  { unfold nearby_where, ST_DWithin, freshness_window.
    rewrite Ha, Hp, Hs, Hloc, Ht. simpl.
    apply Qle_bool_iff in Hin. rewrite Hin. simpl. now apply Z.ltb_lt. }
  rewrite Hw, Hid. unfold uuid_eqb. rewrite Nat.eqb_refl. simpl.
  rewrite Hloc. left. reflexivity.
Qed.

End Candidates.

(** No eligible driver is missed while there is room: a driver who is
    available and approved, whose account is active, who stands within the
    radius and reported his location less than ten minutes ago is among the
    drivers returned, as long as there are at most 20 such drivers. *)
Theorem eligible_driver_is_returned :
  forall (ST_Distance : point -> point -> Q) (lat lon radiusKm : Q) (now : Z)
         (d : db) (dp : driver_profile) (u : user) (loc : point) (t : Z),
    In dp (driver_profiles d) ->
    In u (users d) ->
    dp_user_id dp = user_id u ->
    is_available dp = true ->
    approval_status dp = approved ->
    account_status u = active ->
    current_location dp = Some loc ->
    ST_Distance loc (mkPoint lon lat) <= radiusKm * 1000 ->
    last_location_update dp = Some t ->
    (now - 600 < t)%Z ->
    (List.length (nearby_select ST_Distance (mkPoint lon lat)
                                (radiusKm * 1000) now d) <= 20)%nat ->
    exists c,
      In c (findNearbyDrivers ST_Distance lat lon radiusKm now d)
      /\ id c = dp_user_id dp
      /\ name c = full_name u
      /\ location c = loc
      /\ distance_km c
         = toFixed1_tenths (ST_Distance loc (mkPoint lon lat) / 1000).
Proof.
  intros ST_Distance lat lon radiusKm now d dp u loc t
         Hdp Hu Hid Ha Hp Hs Hloc Hin Ht Hf Hroom.
  pose proof (@nearby_select_complete ST_Distance (mkPoint lon lat)
                (radiusKm * 1000) now d dp u loc t
                Hdp Hu Hid Ha Hp Hs Hloc Hin Ht Hf) as Hrow.
  eexists. split.
  - unfold findNearbyDrivers. apply in_map. unfold nearby_query.
    rewrite firstn_all2
      by (rewrite order_by_distance_length; exact Hroom).
    apply order_by_distance_In. exact Hrow.
  - simpl. destruct loc. repeat split; reflexivity.
Qed.

Lemma eligible_driver_is_returned_witness :
  exists c,
    In c (findNearbyDrivers Fixtures.flat_metres
                            (- (1286389 # 1000000)) (36817223 # 1000000)
                            5 1000 Fixtures.with_requested_trip)
    /\ id c = Fixtures.second_driver
    /\ name c = "Second Driver"%string
    /\ location c = Fixtures.kilimani
    /\ distance_km c
       = toFixed1_tenths
           (Fixtures.flat_metres Fixtures.kilimani
              (mkPoint (36817223 # 1000000) (- (1286389 # 1000000))) / 1000).
Proof.
  apply (@eligible_driver_is_returned
           Fixtures.flat_metres (- (1286389 # 1000000)) (36817223 # 1000000)
           5 1000 Fixtures.with_requested_trip
           (mkDriver Fixtures.second_driver approved true
                     (Some Fixtures.kilimani) (Some 995%Z) 4 20 None)
           (mkUser Fixtures.second_driver "Second Driver" "+254700000003"
                   driver active)
           Fixtures.kilimani 995%Z).
  - simpl. right. left. reflexivity.
  - simpl. right. right. left. reflexivity.
  - reflexivity.
  - reflexivity.
  - reflexivity.
  - reflexivity.
  - reflexivity.
  - vm_compute. discriminate.
  - reflexivity.
  - reflexivity.
  - vm_compute. lia.
Defined.

(** The limit keeps the nearest: the query returns min(20, n) of the n
    eligible drivers, and a driver it leaves out is no nearer than any driver
    it returns. *)
Theorem limit_keeps_the_nearest :
  forall (ST_Distance : point -> point -> Q) (lat lon radiusKm : Q) (now : Z)
         (d : db),
    let eligible :=
      nearby_select ST_Distance (mkPoint lon lat) (radiusKm * 1000) now d in
    let rows :=
      nearby_query ST_Distance (mkPoint lon lat) (radiusKm * 1000) now d in
    List.length (findNearbyDrivers ST_Distance lat lon radiusKm now d)
    = Nat.min 20 (List.length eligible)
    /\ forall r r', In r rows -> In r' eligible -> In r' rows \/ nearer r r'.
Proof.
  intros ST_Distance lat lon radiusKm now d eligible rows. split.
  - unfold findNearbyDrivers, nearby_query. rewrite length_map, length_firstn.
    rewrite order_by_distance_length. reflexivity.
  - intros r r' Hr Hr'. unfold rows, nearby_query in Hr |- *.
    fold eligible in Hr |- *.
    apply order_by_distance_In in Hr'.
    rewrite <- (firstn_skipn candidate_limit (order_by_distance eligible))
      in Hr'.
    apply in_app_or in Hr'. destruct Hr' as [Hin | Hout]; [now left | right].
    apply (@sorted_prefix_before_suffix
             nearby_row nearer
             (firstn candidate_limit (order_by_distance eligible))
             (skipn candidate_limit (order_by_distance eligible)));
      [| exact Hr | exact Hout].
    rewrite firstn_skipn. apply order_by_distance_sorted.
Qed.

(** *** updateDriverLocation and getDriverLocation *)

Lemma select_driver_after_move :
  forall who other p now (l : list driver_profile),
    find (fun row => uuid_eqb (dp_user_id row) other)
         (map (fun row => if uuid_eqb (dp_user_id row) who
                          then move_driver p now row else row) l)
    = option_map (fun row => if uuid_eqb (dp_user_id row) who
                             then move_driver p now row else row)
                 (find (fun row => uuid_eqb (dp_user_id row) other) l).
Proof.
  intros who other p now l. induction l as [| x l IH]; simpl; [reflexivity |].
  assert (E : dp_user_id (if uuid_eqb (dp_user_id x) who
                          then move_driver p now x else x) = dp_user_id x)
    by (destruct (uuid_eqb (dp_user_id x) who); reflexivity).
  rewrite E. destruct (uuid_eqb (dp_user_id x) other); [reflexivity | exact IH].
Qed.

Lemma truthy_nonzero : forall q : Q, ~ q == 0 -> truthy (Some q) = true.
Proof.
  intros q H. simpl. unfold truthy_number.
  destruct (Qeq_bool q 0) eqn:E; [| reflexivity].
  apply Qeq_bool_iff in E. contradiction.
Qed.

(** What [updateDriverLocation] stores is what [getDriverLocation] reads
    back: for a driver with a profile and a position that
    [validateCoordinates] admits (latitude in [-90, 90], longitude in
    [-180, 180]) and whose latitude and longitude are not 0, the position and
    the time of the update. *)
Theorem driver_location_round_trip :
  forall (driverId : uuid) (lat lon : Q) (now : Z) (d : db)
         (row : driver_profile),
    select_driver driverId d = Some row ->
    validateCoordinates lat lon = true ->
    ~ lat == 0 ->
    ~ lon == 0 ->
    getDriverLocation driverId
                      (snd (updateDriverLocation driverId lat lon now d))
    = Some (mkDriverLocation lat lon (Some now)).
Proof.
  intros driverId lat lon now d row Hrow _ Hlat Hlon.
  unfold getDriverLocation, select_driver, updateDriverLocation. simpl.
  rewrite select_driver_after_move.
  unfold select_driver in Hrow. rewrite Hrow. simpl.
  apply find_some in Hrow. destruct Hrow as [_ E]. rewrite E. simpl.
  pose proof (truthy_nonzero Hlat) as Tlat.
  pose proof (truthy_nonzero Hlon) as Tlon.
  simpl in Tlat, Tlon. rewrite Tlat, Tlon. reflexivity.
Qed.

Lemma driver_location_round_trip_witness :
  getDriverLocation Fixtures.first_driver
    (snd (updateDriverLocation Fixtures.first_driver
                               (- (1292066 # 1000000)) (36821945 # 1000000)
                               1234 Fixtures.with_requested_trip))
  = Some (mkDriverLocation (- (1292066 # 1000000)) (36821945 # 1000000)
                           (Some 1234%Z)).
Proof.
  apply (@driver_location_round_trip
           Fixtures.first_driver (- (1292066 # 1000000)) (36821945 # 1000000)
           1234 Fixtures.with_requested_trip
           (mkDriver Fixtures.first_driver approved true
                     (Some Fixtures.westlands) (Some 990%Z) 5 150 None)).
  - reflexivity.
  - reflexivity.
  - discriminate.
  - discriminate.
Defined.

(** A driver on the equator or on the prime meridian has no location: once
    [updateDriverLocation] has stored a position whose latitude or longitude
    is 0, [getDriverLocation] answers [null] for that driver, the number 0
    being falsy. *)
Theorem driver_at_zero_has_no_location :
  forall (driverId : uuid) (lat lon : Q) (now : Z) (d : db),
    lat == 0 \/ lon == 0 ->
    getDriverLocation driverId
                      (snd (updateDriverLocation driverId lat lon now d))
    = None.
Proof.
  intros driverId lat lon now d H.
  unfold getDriverLocation, select_driver, updateDriverLocation. simpl.
  rewrite select_driver_after_move.
  destruct (find (fun row => uuid_eqb (dp_user_id row) driverId)
                 (driver_profiles d)) as [row |] eqn:Hrow; [| reflexivity].
  simpl. apply find_some in Hrow. destruct Hrow as [_ E]. rewrite E. simpl.
  unfold truthy_number.
  destruct H as [H | H]; apply Qeq_bool_iff in H; rewrite H; simpl;
    [reflexivity | rewrite orb_true_r; reflexivity].
Qed.

Lemma driver_at_zero_has_no_location_witness :
  getDriverLocation Fixtures.first_driver
    (snd (updateDriverLocation Fixtures.first_driver 0 (3707 # 100) 1234
                               Fixtures.with_requested_trip))
  = None.
Proof.
  apply (@driver_at_zero_has_no_location
           Fixtures.first_driver 0 (3707 # 100) 1234
           Fixtures.with_requested_trip).
  left. reflexivity.
Defined.

(** An update of one driver is nobody else's: it resolves to [true], leaves
    the users, the trips and the standing of every driver (approval,
    availability, rating) as they were, and changes the location read for no
    other driver. *)
Theorem location_update_touches_one_driver :
  forall (driverId : uuid) (lat lon : Q) (now : Z) (d : db),
    let d' := snd (updateDriverLocation driverId lat lon now d) in
    fst (updateDriverLocation driverId lat lon now d) = true
    /\ users d' = users d
    /\ trips d' = trips d
    /\ audit_logs d' = audit_logs d
    /\ Forall2 same_standing (driver_profiles d) (driver_profiles d')
    /\ forall other, other <> driverId ->
                     getDriverLocation other d' = getDriverLocation other d.
Proof.
  intros driverId lat lon now d d'. unfold d', updateDriverLocation. simpl.
  repeat split.
  - induction (driver_profiles d) as [| x l IH]; simpl; constructor;
      [| exact IH].
    destruct (uuid_eqb (dp_user_id x) driverId); repeat split; reflexivity.
  - intros other Hne. unfold getDriverLocation, select_driver. simpl.
    rewrite select_driver_after_move.
    destruct (find (fun row => uuid_eqb (dp_user_id row) other)
                   (driver_profiles d)) as [row |] eqn:Hrow; [| reflexivity].
    simpl. apply find_some in Hrow. destruct Hrow as [_ E].
    apply Nat.eqb_eq in E.
    assert (F : uuid_eqb (dp_user_id row) driverId = false)
      by (apply Nat.eqb_neq; congruence).
    rewrite F. reflexivity.
Qed.

(** A location report makes a driver a candidate: after
    [updateDriverLocation] with a position that [validateCoordinates] admits,
    an approved and available driver with an active account is among the rows
    the candidate query selects around any point within the radius of the
    reported position, for ten minutes. *)
Theorem reported_driver_becomes_candidate :
  forall (ST_Distance : point -> point -> Q)
         (driverId : uuid) (lat lon : Q) (now : Z) (d : db)
         (row : driver_profile) (u : user)
         (origin : point) (metres : Q) (later : Z),
    In row (driver_profiles d) ->
    dp_user_id row = driverId ->
    is_available row = true ->
    approval_status row = approved ->
    In u (users d) ->
    user_id u = driverId ->
    account_status u = active ->
    validateCoordinates lat lon = true ->
    ST_Distance (mkPoint lon lat) origin <= metres ->
    (later - 600 < now)%Z ->
    exists r,
      In r (nearby_select ST_Distance origin metres later
                          (snd (updateDriverLocation driverId lat lon now d)))
      /\ nr_user_id r = driverId
      /\ nr_latitude r = lat
      /\ nr_longitude r = lon
      /\ nr_distance_km r = ST_Distance (mkPoint lon lat) origin / 1000.
Proof.
  intros ST_Distance driverId lat lon now d row u origin metres later
         Hrow Hid Ha Hp Hu Huid Hs _ Hin Hfresh.
  eexists. split.
  - apply (@nearby_select_complete
             ST_Distance origin metres later
             (snd (updateDriverLocation driverId lat lon now d))
             (move_driver (mkPoint lon lat) now row) u (mkPoint lon lat) now).
    + unfold updateDriverLocation. simpl. apply in_map_iff. exists row.
      split; [| exact Hrow].
      rewrite Hid. unfold uuid_eqb. rewrite Nat.eqb_refl. reflexivity.
    + exact Hu.
    + simpl. congruence.
    + exact Ha.
    + exact Hp.
    + exact Hs.
    + reflexivity.
    + exact Hin.
    + reflexivity.
    + exact Hfresh.
  - simpl. repeat split; try reflexivity. exact Hid.
Qed.

Lemma reported_driver_becomes_candidate_witness :
  exists r,
    In r (nearby_select Fixtures.flat_metres Fixtures.kilimani 5000 1500
            (snd (updateDriverLocation Fixtures.first_driver
                    (- (1292066 # 1000000)) (36821945 # 1000000) 1234
                    Fixtures.with_requested_trip)))
    /\ nr_user_id r = Fixtures.first_driver
    /\ nr_latitude r = - (1292066 # 1000000)
    /\ nr_longitude r = 36821945 # 1000000
    /\ nr_distance_km r
       = Fixtures.flat_metres
           (mkPoint (36821945 # 1000000) (- (1292066 # 1000000)))
           Fixtures.kilimani / 1000.
Proof.
  apply (@reported_driver_becomes_candidate
           Fixtures.flat_metres Fixtures.first_driver
           (- (1292066 # 1000000)) (36821945 # 1000000) 1234
           Fixtures.with_requested_trip
           (mkDriver Fixtures.first_driver approved true
                     (Some Fixtures.westlands) (Some 990%Z) 5 150 None)
           (mkUser Fixtures.first_driver "First Driver" "+254700000002"
                   driver active)
           Fixtures.kilimani 5000 1500%Z).
  - simpl. left. reflexivity.
  - reflexivity.
  - reflexivity.
  - reflexivity.
  - simpl. right. left. reflexivity.
  - reflexivity.
  - reflexivity.
  - reflexivity.
  - vm_compute. discriminate.
  - reflexivity.
Defined.

End LocationMore.

(** ** trips.js: what the handlers do and what they leave alone *)

Module TripsMoreFacts.
Import JS Store Location Trips TripsFacts PricingFacts.

Local Open Scope Q_scope.

Lemma latest_config_is_latest :
  forall l,
    match latest_config l with
    | Some c =>
        In c l
        /\ forall c', In c' l -> (Pricing.created_at c' <= Pricing.created_at c)%Z
    | None => l = []
    end.
Proof.
  induction l as [| x l IH]; simpl; [reflexivity |].
  destruct (latest_config l) as [c |].
  - destruct IH as [Hin Hmax].
    destruct (Z.ltb_spec (Pricing.created_at x) (Pricing.created_at c)).
    + split; [now right |]. intros c' [<- | Hc']; [lia | now apply Hmax].
    + split; [now left |]. intros c' [<- | Hc']; [lia |].
      specialize (Hmax c' Hc'). lia.
  - subst l. split; [now left |]. intros c' [<- | []]. lia.
Qed.

(** The configuration a request is priced with is active, and no active
    configuration is more recent; there is none only when no configuration
    is active. *)
Theorem active_config_is_the_latest_active :
  forall d : db,
    match active_pricing_config d with
    | Some c =>
        In c (pricing_configs d)
        /\ Pricing.is_active c = true
        /\ forall c', In c' (pricing_configs d) ->
                      Pricing.is_active c' = true ->
                      (Pricing.created_at c' <= Pricing.created_at c)%Z
    | None =>
        forall c, In c (pricing_configs d) -> Pricing.is_active c = false
    end.
Proof.
  intro d. unfold active_pricing_config.
  pose proof (latest_config_is_latest
                (filter Pricing.is_active (pricing_configs d))) as H.
  destruct (latest_config (filter Pricing.is_active (pricing_configs d)))
    as [c |].
  - destruct H as [Hin Hmax]. apply filter_In in Hin.
    destruct Hin as [Hin Hact]. repeat split; try assumption.
    intros c' Hc' Ha. apply Hmax. apply filter_In. now split.
  - intros c Hc. destruct (Pricing.is_active c) eqn:E; [| reflexivity].
    assert (Hf : In c (filter Pricing.is_active (pricing_configs d)))
      by (apply filter_In; now split).
    rewrite H in Hf. contradiction.
Qed.

(** The drivers found are notified without an address: the handler reads
    [user_id] on the elements [findNearbyDrivers] returns, which carry [id],
    so every event [POST /request] emits is a [new_trip_request] with no
    recipient. *)
Theorem request_notifications_have_no_recipient :
  forall (calculateDistance : Q -> Q -> Q -> Q -> Q)
         (ST_Distance : point -> point -> Q)
         (client : uuid) (ip : string) (body : request_body)
         (now : Date) (new_id : uuid) (d : db),
    Forall (fun e => exists price,
                e = notifyDriver None
                      (new_trip_request new_id (rb_pickup_location body)
                                        (rb_dropoff_location body) price))
           (snd (post_request calculateDistance ST_Distance client ip body
                              now new_id d)).
Proof.
  intros cd sd client ip body now new_id d. unfold post_request.
  destruct (locations_rejected body); [constructor |].
  destruct (active_pricing_config d); [| constructor].
  destruct (address_of (rb_pickup_location body)); [| constructor].
  destruct (address_of (rb_dropoff_location body)); [| constructor].
  cbn [snd]. apply Forall_forall. intros e He.
  apply in_map_iff in He. destruct He as [c [<- _]].
  eexists. reflexivity.
Qed.

(** A status update that is refused before the statement leaves no trace:
    whenever [PATCH /:trip_id/status] answers a failure other than 500, the
    code is 400, 404 or 403, the database is as it was and nobody has been
    notified. *)
Theorem refused_status_update_leaves_no_trace :
  forall (user : uuid) (ip : string) (id : uuid) (s : trip_status) (now : Z)
         (d d' : db) (code : Z) (error : string) (events : list event),
    patch_status user ip id s now d = (failure code error, d', events) ->
    code <> 500%Z ->
    d' = d /\ events = [] /\ (code = 400 \/ code = 404 \/ code = 403)%Z.
Proof.
  intros user ip id s now d d' code error events H Hcode.
  unfold patch_status in H.
  destruct (negb (existsb (status_eqb s) validStatuses)).
  { injection H as <- _ <- <-. auto. }
  destruct (select_trip id d) as [t |].
  2: { injection H as <- _ <- <-. auto. }
  destruct (negb (uuid_eqb (client_id t) user)
            && negb (column_is (driver_id t) user)).
  { injection H as <- _ <- <-. auto. }
  destruct (status_statement id s now d) as [[rows d1] |].
  - discriminate H.
  - injection H as <- _ _ _. contradiction Hcode. reflexivity.
Qed.

Lemma refused_status_update_leaves_no_trace_witness :
  Fixtures.with_requested_trip = Fixtures.with_requested_trip
  /\ @nil event = []
  /\ (403 = 400 \/ 403 = 404 \/ 403 = 403)%Z.
Proof.
  apply (@refused_status_update_leaves_no_trace
           Fixtures.second_driver "10.0.0.3" Fixtures.the_trip
           cancelled_by_driver 1100 Fixtures.with_requested_trip
           Fixtures.with_requested_trip 403%Z unauthorized_error []).
  - reflexivity.
  - discriminate.
Defined.

(** *** Acceptance and the availability of the driver *)

Lemma select_driver_insert_audit :
  forall who a d, select_driver who (insert_audit a d) = select_driver who d.
Proof. reflexivity. Qed.

Lemma first_row_of_accept :
  forall driver id now l row rest,
    map (bind_driver driver now) (filter (still_pending id) l) = row :: rest ->
    exists t, In t l /\ trip_id t = id /\ status t = pending
              /\ row = bind_driver driver now t.
Proof.
  intros driver id now l row rest H.
  destruct (filter (still_pending id) l) as [| t ts] eqn:E; [discriminate |].
  injection H as <- _.
  assert (Hin : In t (filter (still_pending id) l)) by (rewrite E; now left).
  apply filter_In in Hin. destruct Hin as [Hin Hp].
  unfold still_pending in Hp. apply andb_true_iff in Hp.
  destruct Hp as [Hid Hst]. apply Nat.eqb_eq in Hid.
  exists t. repeat split; try assumption.
  destruct (status t); simpl in Hst; congruence.
Qed.

(** An accept that is refused leaves no trace: whenever
    [POST /:trip_id/accept] answers a failure other than 500, the code is 403
    or 409, the database is as it was and the client has not been
    notified. *)
Theorem refused_accept_leaves_no_trace :
  forall (driver : uuid) (ip : string) (id : uuid) (now : Z)
         (d d' : db) (code : Z) (error : string) (events : list event),
    post_accept driver ip id now d = (failure code error, d', events) ->
    code <> 500%Z ->
    d' = d /\ events = [] /\ (code = 403 \/ code = 409)%Z.
Proof.
  intros driver ip id now d d' code error events H Hcode.
  unfold post_accept in H.
  destruct (negb (driver_may_accept driver d)).
  { injection H as <- _ <- <-. auto. }
  destruct (accept_statement driver id now d) as [[| row rows] d1].
  { injection H as <- _ <- <-. auto. }
  destruct (select_user (client_id row)
                        (update_availability (Some driver) false d1)).
  - discriminate H.
  - injection H as <- _ _ _. now elim Hcode.
Qed.

Lemma refused_accept_leaves_no_trace_witness :
  Fixtures.with_accepted_trip = Fixtures.with_accepted_trip
  /\ @nil event = []
  /\ (409 = 403 \/ 409 = 409)%Z.
Proof.
  apply (@refused_accept_leaves_no_trace
           Fixtures.second_driver "10.0.0.3" Fixtures.the_trip 1100
           Fixtures.with_accepted_trip Fixtures.with_accepted_trip
           409%Z stale_offer_error []).
  - reflexivity.
  - discriminate.
Defined.

(** The driver who has accepted a trip is taken: when
    [POST /:trip_id/accept] answers success, the trip answered is the one
    asked for and was pending, its client is the one recipient notified, and
    every further accept call by the same driver, on any trip, is answered
    403 and changes nothing. *)
Theorem accepting_driver_is_taken :
  forall (driver : uuid) (ip : string) (id : uuid) (now : Z)
         (d d' : db) (answer : accepted_trip) (events : list event),
    post_accept driver ip id now d = (json answer, d', events) ->
    at_id answer = id
    /\ (exists t,
          In t (trips d) /\ trip_id t = id /\ status t = pending
          /\ at_estimated_price answer = estimated_price t
          /\ events = [notifyClient (client_id t) (trip_accepted id driver)])
    /\ forall ip2 id2 now2,
         post_accept driver ip2 id2 now2 d'
         = (failure 403 driver_not_eligible_error, d', []).
Proof.
  intros driver ip id now d d' answer events H.
  unfold post_accept in H.
  destruct (driver_may_accept driver d) eqn:Hmay; [| discriminate H].
  cbn [negb] in H. unfold accept_statement in H.
  destruct (map (bind_driver driver now)
                (filter (still_pending id) (trips d)))
    as [| row rows] eqn:Hrows; [discriminate H |].
  destruct (first_row_of_accept driver id now (trips d) Hrows)
    as [t [Hin [Hid [Hst ->]]]].
  destruct (select_user _ _) as [c |]; [| discriminate H].
  injection H as <- <- <-.
  split; [exact Hid |]. split.
  - exists t. cbn. rewrite Hid. repeat split; assumption.
  - intros ip2 id2 now2. unfold post_accept.
    destruct (AcceptRaceFacts.eligible_driver_has_profile driver d Hmay)
      as [p Hp].
    match goal with
    | |- context [driver_may_accept driver ?X] =>
        change (driver_may_accept driver X)
          with (driver_may_accept
                  driver (update_availability (Some driver) false d))
    end.
    unfold driver_may_accept.
    rewrite (@AcceptRaceFacts.select_driver_marked driver false d p Hp).
    simpl. rewrite andb_false_r. reflexivity.
Qed.

Lemma accepting_driver_is_taken_witness :
  at_id (mkAcceptedTrip Fixtures.the_trip "Rider" "+254712345678"
                        "Westlands, Nairobi" "Kilimani, Nairobi" 560)
  = Fixtures.the_trip
  /\ (exists t,
        In t (trips Fixtures.with_requested_trip)
        /\ trip_id t = Fixtures.the_trip /\ status t = pending
        /\ at_estimated_price
             (mkAcceptedTrip Fixtures.the_trip "Rider" "+254712345678"
                             "Westlands, Nairobi" "Kilimani, Nairobi" 560)
           = estimated_price t
        /\ [notifyClient Fixtures.rider
                         (trip_accepted Fixtures.the_trip Fixtures.first_driver)]
           = [notifyClient (client_id t)
                           (trip_accepted Fixtures.the_trip
                                          Fixtures.first_driver)])
  /\ forall ip2 id2 now2,
       post_accept Fixtures.first_driver ip2 id2 now2
                   Fixtures.with_accepted_trip
       = (failure 403 driver_not_eligible_error,
          Fixtures.with_accepted_trip, []).
Proof.
  apply (@accepting_driver_is_taken
           Fixtures.first_driver "10.0.0.2" Fixtures.the_trip 1000
           Fixtures.with_requested_trip Fixtures.with_accepted_trip
           (mkAcceptedTrip Fixtures.the_trip "Rider" "+254712345678"
                           "Westlands, Nairobi" "Kilimani, Nairobi" 560)
           [notifyClient Fixtures.rider
                         (trip_accepted Fixtures.the_trip
                                        Fixtures.first_driver)]).
  reflexivity.
Defined.

(** Nothing frees a driver.  The statement that would write completed or a
    cancelled status binds CURRENT_TIMESTAMP as a text and is refused: the
    participant who completes or cancels a trip is answered 500, nothing is
    written, nobody is notified, and the line that makes the driver available
    again is never reached.  Whatever the call of the status handler, the
    driver rows are afterwards as they were before. *)
Theorem finishing_never_frees_the_driver :
  forall (user : uuid) (ip : string) (id : uuid) (s : trip_status) (now : Z)
         (d : db) (t : trip),
    select_trip id d = Some t ->
    client_id t = user \/ driver_id t = Some user ->
    s = completed \/ s = cancelled_by_client \/ s = cancelled_by_driver ->
    patch_status user ip id s now d
    = (failure 500 status_failed_error, d, [])
    /\ forall (user' : uuid) (ip' : string) (id' : uuid) (s' : trip_status)
              (now' : Z),
         driver_profiles (snd (fst (patch_status user' ip' id' s' now' d)))
         = driver_profiles d.
Proof.
  intros user ip id s now d t Hsel Hwho Hs. split.
  - apply (@patch_status_refused user ip id s now d t Hsel Hwho).
    destruct Hs as [-> | [-> | ->]]; auto.
  - intros user' ip' id' s' now'. unfold patch_status.
    destruct (negb (existsb (status_eqb s') validStatuses)); [reflexivity |].
    destruct (select_trip id' d) as [t' |]; [| reflexivity].
    destruct (negb (uuid_eqb (client_id t') user')
              && negb (column_is (driver_id t') user')); [reflexivity |].
    rewrite status_statement_cases.
    destruct s'; reflexivity.
Qed.

Lemma finishing_never_frees_the_driver_witness :
  patch_status Fixtures.rider "10.0.0.1" Fixtures.the_trip
               cancelled_by_client 1100 Fixtures.with_accepted_trip
  = (failure 500 status_failed_error, Fixtures.with_accepted_trip, [])
  /\ forall (user' : uuid) (ip' : string) (id' : uuid) (s' : trip_status)
            (now' : Z),
       driver_profiles
         (snd (fst (patch_status user' ip' id' s' now'
                                 Fixtures.with_accepted_trip)))
       = driver_profiles Fixtures.with_accepted_trip.
Proof.
  apply (@finishing_never_frees_the_driver
           Fixtures.rider "10.0.0.1" Fixtures.the_trip cancelled_by_client
           1100 Fixtures.with_accepted_trip
           (bind_driver Fixtures.first_driver 1000 Fixtures.requested_trip)).
  - reflexivity.
  - left. reflexivity.
  - right. left. reflexivity.
Defined.

(** *** POST /:trip_id/sos on a trip that does not exist *)

Lemma untouched_rows :
  forall (id : uuid) (g : trip -> trip) (l : list trip),
    (forall t, In t l -> trip_id t <> id) ->
    map (fun t => if uuid_eqb (trip_id t) id then g t else t) l = l.
Proof.
  intros id g l H. induction l as [| x l IH]; simpl; [reflexivity |].
  assert (E : uuid_eqb (trip_id x) id = false)
    by (apply Nat.eqb_neq, H; now left).
  rewrite E, IH; [reflexivity |]. intros t Ht. apply H. now right.
Qed.

(** An SOS for a trip that is not on record is acknowledged all the same: the
    answer is the success answer, no trip is changed, the alert sent to the
    administrators carries no trip details, and an emergency event is logged
    under the id that was given. *)
Theorem sos_for_unknown_trip_is_acknowledged :
  forall (SUPPORT_PHONE : option string) (user : uuid) (ip : string)
         (id : uuid) (loc : option point) (now : Z) (d : db),
    (forall t, In t (trips d) -> trip_id t <> id) ->
    exists d',
      post_sos SUPPORT_PHONE user ip id loc now d
      = (json (mkSosAck sos_sent_message SUPPORT_PHONE), d',
         [io_emit "admin" (sos_alert id user loc None)])
      /\ trips d' = trips d
      /\ driver_profiles d' = driver_profiles d
      /\ emergency_events id d'
         = emergency_events id d ++ [mkAudit user (sos_triggered_action loc) id ip].
Proof.
  intros SUPPORT_PHONE user ip id loc now d H.
  unfold post_sos, select_trip_details.
  cbn [trips with_trips users].
  rewrite (@untouched_rows id (raise_sos now) (trips d) H).
  assert (Hnone :
    find (fun t => uuid_eqb (trip_id t) id
                   && existsb (fun c => uuid_eqb (client_id t) (user_id c))
                              (users d))
         (trips d) = None).
  { assert (G : forall l, (forall t, In t l -> trip_id t <> id) ->
                  find (fun t => uuid_eqb (trip_id t) id
                                 && existsb (fun c => uuid_eqb (client_id t)
                                                               (user_id c))
                                            (users d)) l = None).
    { induction l as [| x l IH]; intro Hl; simpl; [reflexivity |].
      assert (E : uuid_eqb (trip_id x) id = false)
        by (apply Nat.eqb_neq, Hl; now left).
      rewrite E. simpl. apply IH. intros t Ht. apply Hl. now right. }
    now apply G. }
  rewrite Hnone. eexists. split; [reflexivity |].
  cbn [trips insert_audit with_trips driver_profiles].
  repeat split.
  rewrite emergency_events_logged.
  assert (Hev : is_emergency_event
                  id (mkAudit user (sos_triggered_action loc) id ip) = true)
    by (unfold is_emergency_event, uuid_eqb; simpl; apply Nat.eqb_refl).
  rewrite Hev. unfold emergency_events. reflexivity.
Qed.

Lemma sos_for_unknown_trip_is_acknowledged_witness :
  exists d',
    post_sos None Fixtures.rider "10.0.0.1" 77%nat None 1200
             Fixtures.with_requested_trip
    = (json (mkSosAck sos_sent_message None), d',
       [io_emit "admin" (sos_alert 77%nat Fixtures.rider None None)])
    /\ trips d' = trips Fixtures.with_requested_trip
    /\ driver_profiles d' = driver_profiles Fixtures.with_requested_trip
    /\ emergency_events 77%nat d'
       = emergency_events 77%nat Fixtures.with_requested_trip
         ++ [mkAudit Fixtures.rider (sos_triggered_action None) 77%nat
                     "10.0.0.1"].
Proof.
  apply (@sos_for_unknown_trip_is_acknowledged
           None Fixtures.rider "10.0.0.1" 77%nat None 1200
           Fixtures.with_requested_trip).
  intros t [<- | []]. discriminate.
Defined.

End TripsMoreFacts.

(** ** The tables under the handlers *)

Module LifecycleFacts.
Import JS Store Location Trips System Lifecycle TripsFacts SystemFacts.

Lemma evolves_refl : forall t, evolves t t.
Proof. intro t. unfold evolves. repeat split; auto. Qed.

Lemma evolves_all_refl : forall l : list trip, Forall2 evolves l l.
Proof.
  induction l as [| x l IH]; constructor; [apply evolves_refl | exact IH].
Qed.

Lemma evolves_pointwise :
  forall (P : trip -> Prop) (f : trip -> trip) (l : list trip),
    Forall P l ->
    (forall t, P t -> evolves t (f t)) ->
    Forall2 evolves l (map f l).
Proof.
  intros P f l Hl Hf. induction Hl; simpl; constructor; auto.
Qed.

Lemma evolves_by_accept :
  forall id driver now t,
    unbound_while_pending t ->
    evolves t (if still_pending id t then bind_driver driver now t else t).
Proof.
  intros id driver now t [Hp _].
  destruct (still_pending id t) eqn:E; [| apply evolves_refl].
  unfold still_pending in E. apply andb_true_iff in E. destruct E as [_ E].
  assert (Hst : status t = pending)
    by (destruct (status t); simpl in E; congruence).
  unfold evolves. simpl. repeat split; try reflexivity.
  - intros who Hwho. rewrite (Hp Hst) in Hwho. discriminate.
  - discriminate.
Qed.

Lemma evolves_by_status :
  forall id s times now t,
    existsb (status_eqb s) validStatuses = true ->
    evolves t
            (if uuid_eqb (trip_id t) id then write_status s times now t else t).
Proof.
  intros id s times now t Hs.
  destruct (uuid_eqb (trip_id t) id); [| apply evolves_refl].
  unfold evolves. simpl. repeat split; try reflexivity; auto.
  intros _ E. subst s. discriminate.
Qed.

Lemma evolves_by_sos :
  forall id now t,
    evolves t (if uuid_eqb (trip_id t) id then raise_sos now t else t).
Proof.
  intros id now t.
  destruct (uuid_eqb (trip_id t) id); [| apply evolves_refl].
  unfold evolves. simpl. repeat split; auto.
Qed.

(** Trips are never deleted, reordered or rewritten: from a reachable
    database, a call of any handler keeps every row of trips in place with
    its id, client, pickup, dropoff, estimates and request time, keeps the
    driver of a trip that has one, brings no trip back to pending, and adds
    at most one row, which is pending and without a driver. *)
Theorem trips_only_evolve :
  forall (calculateDistance : Q -> Q -> Q -> Q -> Q)
         (ST_Distance : point -> point -> Q)
         (SUPPORT_PHONE : option string) (a : action) (d : db),
    reachable calculateDistance ST_Distance SUPPORT_PHONE d ->
    exists rows created,
      trips (perform calculateDistance ST_Distance SUPPORT_PHONE a d)
      = rows ++ created
      /\ Forall2 evolves (trips d) rows
      /\ (List.length created <= 1)%nat
      /\ Forall (fun t => status t = pending /\ driver_id t = None) created.
Proof.
  intros cd sd sp a d Hr.
  pose proof (reachable_invariant Hr) as Hinv.
  assert (Hstay : exists rows created,
             trips d = rows ++ created
             /\ Forall2 evolves (trips d) rows
             /\ (List.length created <= 1)%nat
             /\ Forall (fun t => status t = pending /\ driver_id t = None)
                       created).
  { exists (trips d), []. rewrite app_nil_r. repeat split.
    - apply evolves_all_refl.
    - simpl. lia.
    - constructor. }
  assert (Hmapped : forall f,
             (forall t, unbound_while_pending t -> evolves t (f t)) ->
             exists rows created,
               map f (trips d) = rows ++ created
               /\ Forall2 evolves (trips d) rows
               /\ (List.length created <= 1)%nat
               /\ Forall (fun t => status t = pending /\ driver_id t = None)
                         created).
  { intros f Hf. exists (map f (trips d)), []. rewrite app_nil_r.
    repeat split.
    - now apply evolves_pointwise with (P := unbound_while_pending).
    - simpl. lia.
    - constructor. }
  destruct a as [client ip body now new_id | driver ip id now
                 | user ip id s now | user ip id loc now]; simpl.
  - unfold post_request.
    destruct (locations_rejected body); [exact Hstay |].
    destruct (active_pricing_config d); [| exact Hstay].
    destruct (address_of (rb_pickup_location body)); [| exact Hstay].
    destruct (address_of (rb_dropoff_location body)); [| exact Hstay].
    cbn [fst snd trips insert_audit with_trips].
    eexists (trips d), [_]. split; [reflexivity |].
    destruct Hstay as [rows [created [_ _]]].
    repeat split.
    + apply evolves_all_refl.
    + simpl. lia.
    + constructor; [split; reflexivity | constructor].
  - unfold post_accept, accept_statement.
    destruct (driver_may_accept driver d); cbn [negb]; [| exact Hstay].
    destruct (map (bind_driver driver now)
                  (filter (still_pending id) (trips d)));
      [exact Hstay |].
    assert (G := Hmapped (fun t => if still_pending id t
                                   then bind_driver driver now t else t)
                         (fun t Ht => evolves_by_accept id driver now Ht)).
    destruct (select_user _ _); exact G.
  - unfold patch_status.
    destruct (existsb (status_eqb s) validStatuses) eqn:Hs; cbn [negb];
      [| exact Hstay].
    destruct (select_trip id d) as [t |]; [| exact Hstay].
    destruct (negb (uuid_eqb (client_id t) user)
              && negb (column_is (driver_id t) user)); [exact Hstay |].
    destruct (status_statement id s now d) as [[rows d1] |] eqn:E;
      [| exact Hstay].
    apply status_statement_writes in E. destruct E as [times [_ ->]].
    cbn [fst snd]. rewrite trips_insert_audit_availability.
    cbn [trips with_trips].
    apply Hmapped. intros x _. now apply evolves_by_status.
  - unfold post_sos. cbn [fst snd trips insert_audit with_trips].
    apply Hmapped. intros x _. apply evolves_by_sos.
Qed.

Lemma trips_only_evolve_witness :
  exists rows created,
    trips (perform Fixtures.flat_km Fixtures.flat_metres None
                   (SetStatus Fixtures.first_driver "10.0.0.2"
                              Fixtures.the_trip completed 1300)
                   Fixtures.after_cancellation)
    = rows ++ created
    /\ Forall2 evolves (trips Fixtures.after_cancellation) rows
    /\ (List.length created <= 1)%nat
    /\ Forall (fun t => status t = pending /\ driver_id t = None) created.
Proof.
  apply (@trips_only_evolve
           Fixtures.flat_km Fixtures.flat_metres None
           (SetStatus Fixtures.first_driver "10.0.0.2" Fixtures.the_trip
                      completed 1300)
           Fixtures.after_cancellation).
  apply (@reachable_after Fixtures.flat_km Fixtures.flat_metres None
                          Fixtures.the_story Fixtures.no_trips_yet).
  apply reach_start. reflexivity.
Defined.

Lemma availability_only :
  forall (c : driver_profile -> bool) (b : bool) (l : list driver_profile),
    Forall2 same_but_availability l
            (map (fun p => if c p then set_available b p else p) l).
Proof.
  intros c b l. induction l as [| x l IH]; simpl; constructor; [| exact IH].
  destruct (c x); unfold same_but_availability; simpl; repeat split;
    reflexivity.
Qed.

Lemma availability_unchanged :
  forall l : list driver_profile, Forall2 same_but_availability l l.
Proof.
  induction l as [| x l IH]; constructor; [| exact IH].
  unfold same_but_availability. repeat split; reflexivity.
Qed.

(** The handlers of trips.js write the trips, the availability of drivers and
    the audit log, and nothing else: a call of any of them leaves the users
    and the pricing configurations as they were, changes no driver row but
    in its availability (approval, location and rating stay), and appends at
    most one row to the audit log without touching the rows it holds. *)
Theorem handlers_write_little :
  forall (calculateDistance : Q -> Q -> Q -> Q -> Q)
         (ST_Distance : point -> point -> Q)
         (SUPPORT_PHONE : option string) (a : action) (d : db),
    let d' := perform calculateDistance ST_Distance SUPPORT_PHONE a d in
    users d' = users d
    /\ pricing_configs d' = pricing_configs d
    /\ Forall2 same_but_availability (driver_profiles d) (driver_profiles d')
    /\ exists logged,
         audit_logs d' = audit_logs d ++ logged
         /\ (List.length logged <= 1)%nat.
Proof.
  intros cd sd sp a d d'. unfold d'. clear d'.
  assert (Hstay : users d = users d
                  /\ pricing_configs d = pricing_configs d
                  /\ Forall2 same_but_availability (driver_profiles d)
                             (driver_profiles d)
                  /\ exists logged,
                       audit_logs d = audit_logs d ++ logged
                       /\ (List.length logged <= 1)%nat).
  { repeat split; [apply availability_unchanged |].
    exists []. rewrite app_nil_r. split; [reflexivity | simpl; lia]. }
  destruct a as [client ip body now new_id | driver ip id now
                 | user ip id s now | user ip id loc now]; simpl.
  - unfold post_request.
    destruct (locations_rejected body); [exact Hstay |].
    destruct (active_pricing_config d); [| exact Hstay].
    destruct (address_of (rb_pickup_location body)); [| exact Hstay].
    destruct (address_of (rb_dropoff_location body)); [| exact Hstay].
    cbn. repeat split; [apply availability_unchanged |].
    eexists [_]. split; [reflexivity | simpl; lia].
  - unfold post_accept, accept_statement.
    destruct (driver_may_accept driver d); cbn [negb]; [| exact Hstay].
    destruct (map (bind_driver driver now)
                  (filter (still_pending id) (trips d)));
      [exact Hstay |].
    destruct (select_user _ _); cbn; (repeat split;
      [apply availability_only
      | eexists [_]; split; [reflexivity | simpl; lia]]).
  - unfold patch_status.
    destruct (existsb (status_eqb s) validStatuses); cbn [negb];
      [| exact Hstay].
    destruct (select_trip id d) as [t |]; [| exact Hstay].
    destruct (negb (uuid_eqb (client_id t) user)
              && negb (column_is (driver_id t) user)); [exact Hstay |].
    destruct (status_statement id s now d) as [[rows d1] |] eqn:E;
      [| exact Hstay].
    apply status_statement_writes in E. destruct E as [times [_ ->]].
    cbn [fst snd].
    destruct (status_eqb s completed || includes_cancelled s); cbn;
      (repeat split;
       [first [apply availability_only | apply availability_unchanged]
       | eexists [_]; split; [reflexivity | simpl; lia]]).
  - unfold post_sos. cbn. repeat split; [apply availability_unchanged |].
    eexists [_]. split; [reflexivity | simpl; lia].
Qed.

(** *** No trip starts *)

Lemma not_started_map :
  forall (f : trip -> trip) (l : list trip),
    Forall not_started l ->
    (forall t, not_started t -> not_started (f t)) ->
    Forall not_started (map f l).
Proof.
  intros f l Hl Hf. induction Hl; simpl; constructor; auto.
Qed.

Lemma not_started_by_accept :
  forall id driver now t,
    not_started t ->
    not_started (if still_pending id t then bind_driver driver now t else t).
Proof.
  intros id driver now t H. destruct (still_pending id t); [| exact H].
  destruct H as [_ [H1 [H2 H3]]]. unfold not_started. simpl. auto.
Qed.

Lemma not_started_by_arrival :
  forall id now t,
    not_started t ->
    not_started (if uuid_eqb (trip_id t) id
                 then write_status driver_arriving [] now t else t).
Proof.
  intros id now t H. destruct (uuid_eqb (trip_id t) id); [| exact H].
  destruct H as [_ [H1 [H2 H3]]]. unfold not_started. simpl. auto.
Qed.

Lemma not_started_by_sos :
  forall id now t,
    not_started t ->
    not_started (if uuid_eqb (trip_id t) id then raise_sos now t else t).
Proof.
  intros id now t H. destruct (uuid_eqb (trip_id t) id); exact H.
Qed.

Section NoStart.

Variable calculateDistance : Q -> Q -> Q -> Q -> Q.
Variable ST_Distance : point -> point -> Q.
Variable SUPPORT_PHONE : option string.

Lemma perform_starts_nothing :
  forall a d,
    Forall not_started (trips d) ->
    Forall not_started
           (trips (perform calculateDistance ST_Distance SUPPORT_PHONE a d)).
Proof.
  intros a d H.
  destruct a as [client ip body now new_id | driver ip id now
                 | user ip id s now | user ip id loc now]; simpl.
  - (* POST /request *)
    unfold post_request.
    destruct (locations_rejected body); [exact H |].
    destruct (active_pricing_config d); [| exact H].
    destruct (address_of (rb_pickup_location body)); [| exact H].
    destruct (address_of (rb_dropoff_location body)); [| exact H].
    simpl. apply Forall_app. split; [exact H |].
    constructor; [| constructor].
    unfold not_started. simpl. auto.
  - (* POST /:trip_id/accept *)
    unfold post_accept, accept_statement.
    destruct (driver_may_accept driver d); simpl; [| exact H].
    destruct (filter (still_pending id) (trips d)); simpl; [exact H |].
    assert (G : Forall not_started
                  (map (fun t0 => if still_pending id t0
                                  then bind_driver driver now t0 else t0)
                       (trips d))).
    { apply not_started_map; [exact H |].
      intros x Hx. now apply not_started_by_accept. }
    destruct (select_user _ _); exact G.
  - (* PATCH /:trip_id/status *)
    unfold patch_status.
    destruct (negb (existsb (status_eqb s) validStatuses)) eqn:Hs;
      [exact H |].
    destruct (select_trip id d) as [t |]; [| exact H].
    destruct (negb (uuid_eqb (client_id t) user)
              && negb (column_is (driver_id t) user)); [exact H |].
    rewrite status_statement_cases.
    destruct s; try discriminate Hs; try exact H.
    cbn. apply not_started_map; [exact H |].
    intros x Hx. now apply not_started_by_arrival.
  - (* POST /:trip_id/sos *)
    unfold post_sos. simpl.
    apply not_started_map; [exact H |].
    intros x Hx. now apply not_started_by_sos.
Qed.

Lemma reachable_not_started :
  forall d,
    reachable calculateDistance ST_Distance SUPPORT_PHONE d ->
    Forall not_started (trips d).
Proof.
  intros d H. induction H as [d E | d a _ IH | d d' _ IH E].
  - rewrite E. constructor.
  - now apply perform_starts_nothing.
  - rewrite E. exact IH.
Qed.

End NoStart.

(** No trip ever starts, ends or is cancelled.  The status handler is the
    only code that writes in_progress, completed or a cancelled status, and
    the statement by which it does is refused: in every reachable state of
    the system every trip is pending, accepted or driver_arriving, and its
    times of start, completion and cancellation are null. *)
Theorem no_trip_ever_starts :
  forall (calculateDistance : Q -> Q -> Q -> Q -> Q)
         (ST_Distance : point -> point -> Q)
         (SUPPORT_PHONE : option string) (d : db) (t : trip),
    reachable calculateDistance ST_Distance SUPPORT_PHONE d ->
    In t (trips d) ->
    (status t = pending \/ status t = accepted \/ status t = driver_arriving)
    /\ started_at t = None
    /\ completed_at t = None
    /\ cancelled_at t = None.
Proof.
  intros cd sd sp d t Hr Hin.
  pose proof (reachable_not_started Hr) as Hall.
  rewrite Forall_forall in Hall. exact (Hall t Hin).
Qed.

Lemma no_trip_ever_starts_witness :
  (status Fixtures.storied_trip = pending
   \/ status Fixtures.storied_trip = accepted
   \/ status Fixtures.storied_trip = driver_arriving)
  /\ started_at Fixtures.storied_trip = None
  /\ completed_at Fixtures.storied_trip = None
  /\ cancelled_at Fixtures.storied_trip = None.
Proof.
  apply (@no_trip_ever_starts
           Fixtures.flat_km Fixtures.flat_metres None
           Fixtures.after_cancellation Fixtures.storied_trip).
  - apply (@reachable_after Fixtures.flat_km Fixtures.flat_metres None
                            Fixtures.the_story Fixtures.no_trips_yet).
    apply reach_start. reflexivity.
  - vm_compute. left. reflexivity.
Defined.

End LifecycleFacts.

(** ** The trail of a trip, the history of a user, the tracking screen *)

Module TrailFacts.
Import JS Store Trips TripsFacts TripsMore Tracking.



(** The trail of a trip only grows: whatever the call, the samples already
    stored stay in place and in order, at most one sample is added, it
    belongs to the trip of the call, and it is broadcast exactly when it is
    stored, to the room of that trip. *)
Theorem trail_is_append_only :
  forall (driver id : uuid) (lat lon speed heading : option Q) (now : Z)
         (d : db) (trail : list trip_location),
    exists added,
      snd (fst (post_location driver id lat lon speed heading now d trail))
      = trail ++ added
      /\ (List.length added <= 1)%nat
      /\ Forall (fun s => tl_trip_id s = id /\ tl_recorded_at s = now) added
      /\ map lb_room_trip
             (snd (post_location driver id lat lon speed heading now d trail))
         = map tl_trip_id added.
Proof.
  intros driver id lat lon speed heading now d trail. unfold post_location.
  destruct (filter (active_trip_of id driver) (trips d)) as [| x rest].
  - exists []. rewrite app_nil_r. repeat split; [simpl; lia | constructor].
  - destruct lat as [lat |], lon as [lon |],
             (bound_decimal_5_2 speed) as [stored_speed |],
             (bound_decimal_5_2 heading) as [stored_heading |];
      try (exists []; rewrite app_nil_r;
           repeat split; [simpl; lia | constructor]).
    eexists [_]. repeat split; [simpl; lia |].
    constructor; [split; reflexivity | constructor].
Qed.

(** No location report is ever taken.  A report is stored for a trip in
    progress only, and no trip is ever in progress: in every reachable state
    of the system, whoever calls, [POST /:trip_id/location] answers 403,
    stores nothing and broadcasts nothing. *)
Theorem no_report_is_ever_taken :
  forall (calculateDistance : Q -> Q -> Q -> Q -> Q)
         (ST_Distance : point -> point -> Q)
         (SUPPORT_PHONE : option string) (d : db)
         (driver id : uuid) (lat lon speed heading : option Q) (now : Z)
         (trail : list trip_location),
    System.reachable calculateDistance ST_Distance SUPPORT_PHONE d ->
    post_location driver id lat lon speed heading now d trail
    = (failure 403 location_refused_error, trail, []).
Proof.
  intros cd sd sp d driver id lat lon speed heading now trail Hr.
  pose proof (LifecycleFacts.reachable_not_started Hr) as Hall.
  unfold post_location.
  destruct (filter (active_trip_of id driver) (trips d)) as [| x rest] eqn:E;
    [reflexivity |].
  exfalso.
  assert (Hx : In x (filter (active_trip_of id driver) (trips d)))
    by (rewrite E; now left).
  apply filter_In in Hx. destruct Hx as [Hx Ha].
  rewrite Forall_forall in Hall. destruct (Hall x Hx) as [Hst _].
  unfold active_trip_of in Ha. apply andb_true_iff in Ha.
  destruct Ha as [_ Ha].
  destruct Hst as [Hst | [Hst | Hst]]; rewrite Hst in Ha; discriminate Ha.
Qed.

Lemma no_report_is_ever_taken_witness :
  post_location Fixtures.first_driver Fixtures.the_trip
                (Some (- (1287 # 1000))) (Some (36818 # 1000))
                (Some (455 # 10)) (Some 180) 1200
                Fixtures.after_cancellation []
  = (failure 403 location_refused_error, [], []).
Proof.
  apply (@no_report_is_ever_taken
           Fixtures.flat_km Fixtures.flat_metres None
           Fixtures.after_cancellation
           Fixtures.first_driver Fixtures.the_trip
           (Some (- (1287 # 1000))) (Some (36818 # 1000))
           (Some (455 # 10)) (Some 180) 1200 []).
  apply (@SystemFacts.reachable_after
           Fixtures.flat_km Fixtures.flat_metres None
           Fixtures.the_story Fixtures.no_trips_yet).
  apply System.reach_start. reflexivity.
Defined.

(** *** GET /history *)

Lemma insert_by_recency_In :
  forall t x l, In x (insert_by_recency t l) <-> x = t \/ In x l.
Proof.
  intros t x l. induction l as [| y l IH]; simpl.
  - intuition.
  - destruct (requested_at y <=? requested_at t)%Z; simpl.
    + intuition.
    + rewrite IH. intuition.
Qed.

Lemma order_by_recency_In :
  forall x l, In x (order_by_recency l) <-> In x l.
Proof.
  intros x l. induction l as [| y l IH]; simpl.
  - reflexivity.
  - rewrite insert_by_recency_In, IH. intuition.
Qed.

Lemma insert_by_recency_sorted :
  forall t l, StronglySorted newer_first l ->
              StronglySorted newer_first (insert_by_recency t l).
Proof.
  intros t l Hs. induction Hs as [| y l Hs IH Hall]; simpl.
  - constructor; constructor.
  - destruct (Z.leb_spec (requested_at y) (requested_at t)).
    + constructor; [constructor; assumption |].
      constructor; [exact H |].
      rewrite Forall_forall in *. intros z Hz. specialize (Hall z Hz).
      unfold newer_first in *. lia.
    + constructor; [exact IH |].
      rewrite Forall_forall in *. intros z Hz.
      apply insert_by_recency_In in Hz. destruct Hz as [-> | Hz].
      * unfold newer_first. lia.
      * apply Hall, Hz.
Qed.

Lemma order_by_recency_sorted :
  forall l, StronglySorted newer_first (order_by_recency l).
Proof.
  induction l as [| y l IH]; simpl.
  - constructor.
  - apply insert_by_recency_sorted, IH.
Qed.

Lemma skipn_incl :
  forall (A : Type) (n : nat) (l : list A) (x : A),
    In x (skipn n l) -> In x l.
Proof.
  intros A n l x H. rewrite <- (firstn_skipn n l). apply in_or_app. now right.
Qed.

Lemma skipn_sorted :
  forall (A : Type) (R : A -> A -> Prop) (n : nat) (l : list A),
    StronglySorted R l -> StronglySorted R (skipn n l).
Proof.
  intros A R n. induction n as [| n IH]; intros l Hs; simpl; [exact Hs |].
  destruct Hs as [| y l Hs Hall]; [constructor | apply IH, Hs].
Qed.

(** A page of history holds the caller's own trips, most recent first.  For
    a page number and a limit that are safe integers, with a safe offset
    [(page - 1) * limit], [GET /history] fails, with 500, exactly when the
    limit or the offset is negative; otherwise the page has at most [limit]
    trips, each is a trip on record in which the caller is the driver (for a
    driver) or the client (for anyone else), the trips come in descending
    order of their time, and the total is the number of all the caller's
    trips whatever the page. *)
Theorem history_page_is_the_callers :
  forall (user : uuid) (kind : user_type) (page limit : Z) (d : db),
    safe_integer page ->
    safe_integer limit ->
    safe_integer ((page - 1) * limit) ->
    match get_history user kind page limit d with
    | json h =>
        (0 <= limit)%Z /\ (0 <= (page - 1) * limit)%Z
        /\ (List.length (hp_trips h) <= Z.to_nat limit)%nat
        /\ Forall (fun t => In t (trips d)
                            /\ in_history_of user kind t = true)
                  (hp_trips h)
        /\ StronglySorted newer_first (hp_trips h)
        /\ hp_total h
           = List.length (filter (in_history_of user kind) (trips d))
        /\ hp_page h = page /\ hp_limit h = limit
    | failure code error =>
        code = 500%Z /\ error = history_failed_error
        /\ ((limit < 0)%Z \/ ((page - 1) * limit < 0)%Z)
    end.
Proof.
  intros user kind page limit d _ Hlimit Hoffset. unfold get_history.
  unfold safe_integer in Hlimit, Hoffset.
  destruct (Z.ltb_spec limit 0) as [Hl | Hl]; simpl.
  { repeat split. now left. }
  destruct (Z.ltb_spec ((page - 1) * limit) 0) as [Ho | Ho]; simpl.
  { repeat split. now right. }
  destruct (Z.ltb_spec bigint_max limit) as [Hb | _]; simpl.
  { unfold bigint_max in Hb. lia. }
  destruct (Z.ltb_spec bigint_max ((page - 1) * limit)) as [Hb | _]; simpl.
  { unfold bigint_max in Hb. lia. }
  repeat split; try assumption.
  - apply firstn_le_length.
  - apply Forall_forall. intros t Ht.
    apply LocationFacts.firstn_incl in Ht. apply skipn_incl in Ht.
    rewrite order_by_recency_In in Ht. apply filter_In in Ht.
    destruct Ht as [Hin Hc]. apply andb_true_iff in Hc. tauto.
  - apply LocationFacts.firstn_sorted, skipn_sorted, order_by_recency_sorted.
Qed.

Lemma history_page_is_the_callers_witness :
  match get_history Fixtures.rider client 1 20 Fixtures.with_accepted_trip with
  | json h =>
      (0 <= 20)%Z /\ (0 <= (1 - 1) * 20)%Z
      /\ (List.length (hp_trips h) <= Z.to_nat 20)%nat
      /\ Forall (fun t => In t (trips Fixtures.with_accepted_trip)
                          /\ in_history_of Fixtures.rider client t = true)
                (hp_trips h)
      /\ StronglySorted newer_first (hp_trips h)
      /\ hp_total h
         = List.length (filter (in_history_of Fixtures.rider client)
                               (trips Fixtures.with_accepted_trip))
      /\ hp_page h = 1%Z /\ hp_limit h = 20%Z
  | failure code error =>
      code = 500%Z /\ error = history_failed_error
      /\ ((20 < 0)%Z \/ ((1 - 1) * 20 < 0)%Z)
  end.
Proof.
  apply (@history_page_is_the_callers
           Fixtures.rider client 1 20 Fixtures.with_accepted_trip);
    unfold safe_integer; simpl; lia.
Defined.

(** *** The tracking screen *)

Lemma last_after_head :
  forall (A : Type) (l : list A) (a d : A), last (a :: l) d = last l a.
Proof.
  intros A l. induction l as [| x l IH]; intros a d; [reflexivity |].
  change (last (a :: x :: l) d) with (last (x :: l) d).
  rewrite (IH x d), (IH x a). reflexivity.
Qed.

Lemma trail_from :
  forall (l : list socket_event) (s : screen),
    routeCoordinates (fold_left on_event l s)
    = routeCoordinates s ++ positions l
    /\ driverLocation (fold_left on_event l s)
       = last (map Some (positions l)) (driverLocation s).
Proof.
  induction l as [| e l IH]; intro s; simpl.
  - rewrite app_nil_r. split; reflexivity.
  - destruct (IH (on_event s e)) as [Hr Hd]. rewrite Hr, Hd.
    destruct e as [lat lon | st]; simpl.
    + rewrite <- app_assoc. split; [reflexivity |].
      symmetry. apply last_after_head.
    + split; reflexivity.
Qed.

(** The screen follows the driver: after any sequence of socket events, the
    route drawn is the list of the positions received, in the order
    received, status changes leaving it alone, and the driver is shown at the
    last of them (nowhere while none has come). *)
Theorem screen_follows_the_driver :
  forall events : list socket_event,
    routeCoordinates (after_events events) = positions events
    /\ driverLocation (after_events events)
       = last (map Some (positions events)) None
    /\ List.length (routeCoordinates (after_events events))
       = List.length (positions events).
Proof.
  intro events. unfold after_events.
  destruct (trail_from events initial_screen) as [Hr Hd].
  simpl in Hr, Hd. rewrite Hr, Hd. repeat split.
Qed.

End TrailFacts.
